(** * GitRepository: validation, sync dispatch and clone

    A shallow embedding of [nautobot/extras/models/datasources.py]: the
    [GitRepository] model with its [clean], [sync] and [clone] methods.

    The Python object is a record of its attributes, the database table a
    finite map from primary keys to rows, and a method that both mutates
    state and may raise is a function in a state-and-exception monad: the
    state reached when the exception is raised is kept, as in Python. *)

From Stdlib Require Import NArith Ascii String.
From stdpp Require Import base option list strings gmap fin_maps.

Local Open Scope string_scope.

(** ** Exceptions *)

(** The exception classes that [clean] and [clone] raise or let through.
    [DataError] is the database's refusal of a value that does not fit
    its column. [OtherError] stands for any other [Exception] subclass
    raised by a collaborator (a git failure, a secrets failure, ...), and
    [BaseExceptionOnly] for a [BaseException] that is not an [Exception]
    ([KeyboardInterrupt], [SystemExit], [GeneratorExit]). *)
Inductive exn : Type :=
  | ValidationError (message : string)
  | ValueError (message : string)
  | IntegrityError (message : string)
  | DataError (message : string)
  | DoesNotExist
  | OtherError (message : string)
  | BaseExceptionOnly (class_name : string).

(** [isinstance(e, Exception)]. *)
Definition is_Exception (e : exn) : bool :=
  match e with
  | BaseExceptionOnly _ => false
  | _ => true
  end.

(** ** State and exception monad *)

(** A computation over a state [S]: it ends with a value or with a raised
    exception, and in both cases with the state reached so far. *)
Definition M (S A : Type) : Type := S -> (exn + A) * S.

Definition ret {S A} (a : A) : M S A := fun s => (inr a, s).

Definition raise {S A} (e : exn) : M S A := fun s => (inl e, s).

Definition bind {S A B} (m : M S A) (k : A -> M S B) : M S B :=
  fun s =>
    match m s with
    | (inl e, s') => (inl e, s')
    | (inr a, s') => k a s'
    end.

Definition get {S} : M S S := fun s => (inr s, s).

Definition put {S} (s : S) : M S unit := fun _ => (inr tt, s).

(** [try: m except Exception: h; raise]: for an [Exception] the handler
    runs in the state the failed body left behind and the exception is
    raised again; any other [BaseException] passes the clause by. *)
Definition try_except_reraise {S A} (m : M S A) (h : M S unit) : M S A :=
  fun s =>
    match m s with
    | (inl e, s') =>
        if is_Exception e then
          match h s' with
          | (inl e', s'') => (inl e', s'')
          | (inr _, s'') => (inl e, s'')
          end
        else (inl e, s')
    | (inr a, s') => (inr a, s')
    end.

Notation "'do' x <- m ; k" := (bind m (fun x => k))
  (at level 10, x name, m at level 100, k at level 200).
Notation "'do' ' pat <- m ; k" :=
  (bind m (fun x => match x with pat => k end))
  (at level 10, pat pattern, m at level 100, k at level 200).
Notation "'run' m ; k" := (bind m (fun _ => k))
  (at level 10, m at level 100, k at level 200).

(** ** Identifiers *)

(** A UUID is its 128-bit integer value ([uuid.UUID.int]). *)
Definition UUID : Type := N.

Definition hex_digit (n : N) : ascii :=
  match n with
  | 0 => "0" | 1 => "1" | 2 => "2" | 3 => "3" | 4 => "4" | 5 => "5"
  | 6 => "6" | 7 => "7" | 8 => "8" | 9 => "9" | 10 => "a" | 11 => "b"
  | 12 => "c" | 13 => "d" | 14 => "e" | _ => "f"
  end%N%char.

(** The [len] hexadecimal digits of [n] that end [skip] digits from the
    right, most significant first: a slice of ['%032x' % n]. *)
Fixpoint hex_field (len : nat) (skip : N) (n : N) : string :=
  match len with
  | O => ""
  | S len' =>
      String (hex_digit (N.land (N.shiftr n (4 * (skip + N.of_nat len'))) 15))
             (hex_field len' skip n)
  end.

(** [str(u)] for a [uuid.UUID]: 8-4-4-4-12 lowercase hexadecimal digits. *)
Definition uuid_str (u : UUID) : string :=
  hex_field 8 24 u ++ "-" ++ hex_field 4 20 u ++ "-" ++ hex_field 4 16 u
  ++ "-" ++ hex_field 4 12 u ++ "-" ++ hex_field 12 0 u.

(** ** Data model *)

(** The columns of one row of the [GitRepository] table. *)
Record Row : Type := mkRow {
  row_name : string;
  row_slug : string;
  row_remote_url : string;
  row_branch : string;
  row_current_head : string;
  row_secrets_group : option UUID;
  row_provided_contents : list string
}.

(** A [GitRepository] instance: the column attributes, the primary key
    ([None] when unset), Django's [_state.adding] flag and the private
    [__initial_slug] set by [__init__]. *)
Record GitRepository : Type := mkGitRepository {
  id : option UUID;
  name : string;
  slug : string;
  remote_url : string;
  branch : string;
  current_head : string;
  secrets_group : option UUID;
  provided_contents : list string;
  state_adding : bool;
  initial_slug : string
}.

Definition set_id (v : option UUID) (r : GitRepository) : GitRepository :=
  mkGitRepository v (name r) (slug r) (remote_url r) (branch r)
    (current_head r) (secrets_group r) (provided_contents r)
    (state_adding r) (initial_slug r).

Definition set_name (v : string) (r : GitRepository) : GitRepository :=
  mkGitRepository (id r) v (slug r) (remote_url r) (branch r)
    (current_head r) (secrets_group r) (provided_contents r)
    (state_adding r) (initial_slug r).

Definition set_slug (v : string) (r : GitRepository) : GitRepository :=
  mkGitRepository (id r) (name r) v (remote_url r) (branch r)
    (current_head r) (secrets_group r) (provided_contents r)
    (state_adding r) (initial_slug r).

Definition set_branch (v : string) (r : GitRepository) : GitRepository :=
  mkGitRepository (id r) (name r) (slug r) (remote_url r) v
    (current_head r) (secrets_group r) (provided_contents r)
    (state_adding r) (initial_slug r).

Definition set_current_head (v : string) (r : GitRepository) : GitRepository :=
  mkGitRepository (id r) (name r) (slug r) (remote_url r) (branch r)
    v (secrets_group r) (provided_contents r)
    (state_adding r) (initial_slug r).

Definition set_state_adding (v : bool) (r : GitRepository) : GitRepository :=
  mkGitRepository (id r) (name r) (slug r) (remote_url r) (branch r)
    (current_head r) (secrets_group r) (provided_contents r)
    v (initial_slug r).

(** The column values of an instance, as [save] writes them. *)
Definition to_row (r : GitRepository) : Row :=
  mkRow (name r) (slug r) (remote_url r) (branch r) (current_head r)
    (secrets_group r) (provided_contents r).

(** [GitRepository.__init__] (lines 77-81) as run when a row is loaded:
    the instance is not being added and remembers the slug it was
    loaded with. *)
Definition from_db (k : UUID) (row : Row) : GitRepository :=
  mkGitRepository (Some k) (row_name row) (row_slug row)
    (row_remote_url row) (row_branch row) (row_current_head row)
    (row_secrets_group row) (row_provided_contents row)
    false (row_slug row).

(** [GitRepository(...)] for a record that is not in the database yet. *)
Definition new_instance (k : option UUID) (row : Row) : GitRepository :=
  mkGitRepository k (row_name row) (row_slug row)
    (row_remote_url row) (row_branch row) (row_current_head row)
    (row_secrets_group row) (row_provided_contents row)
    true (row_slug row).

(** Modelled from the spec: the inherited property [present_in_database]
    is not in the source file; it tells an update from a create, and is
    the negation of the instance's adding flag. *)
Definition present_in_database (r : GitRepository) : bool :=
  negb (state_adding r).

(** ** The table and its queries *)

Abbreviation Table := (gmap UUID Row).

(** A queryset is the sub-table of the rows it selects. *)
Definition qs_filter (p : UUID -> Row -> bool) (qs : Table) : Table :=
  filter (fun kv => p kv.1 kv.2 = true) qs.

Definition qs_exclude (p : UUID -> Row -> bool) (qs : Table) : Table :=
  filter (fun kv => p kv.1 kv.2 = false) qs.

Definition qs_exists (qs : Table) : bool := bool_decide (qs <> ∅).

(** [objects.get(id=k)]: the instance loaded from the row, or
    [DoesNotExist]. *)
Definition objects_get {S} (db : Table) (k : option UUID) : M S GitRepository :=
  match k with
  | Some k' =>
      match db !! k' with
      | Some row => ret (from_db k' row)
      | None => raise DoesNotExist
      end
  | None => raise DoesNotExist
  end.

(** [id=v] as a lookup: a row's key is never NULL, so [id=None] selects
    nothing. *)
Definition id_is (v : option UUID) (k : UUID) (_ : Row) : bool :=
  bool_decide (v = Some k).

(** Django [Q] objects over the [provided_contents] column. An empty [Q()]
    matches every row; [|] with an empty operand gives the other one. *)
Inductive Q : Type :=
  | Q_empty
  | Q_contains (item : string)
  | Q_or (q1 q2 : Q).

Definition q_or (q1 q2 : Q) : Q :=
  match q1, q2 with
  | Q_empty, _ => q2
  | _, Q_empty => q1
  | _, _ => Q_or q1 q2
  end.

(** [provided_contents__contains=item] on the JSON list column: the list
    has [item] as an element. *)
Fixpoint q_eval (q : Q) (row : Row) : bool :=
  match q with
  | Q_empty => true
  | Q_contains item => bool_decide (item ∈ row_provided_contents row)
  | Q_or q1 q2 => q_eval q1 row || q_eval q2 row
  end.

(** ** The world outside the instance *)

(** A principal on whose behalf a job runs. *)
Definition User : Type := string.

(** The two kinds of asynchronous task that [sync] chooses between. *)
Inductive TaskKind : Type :=
  | DiffOriginAndLocal
  | PullAndRefreshData.

(** A queued task: its kind, the repository it is about, the user. *)
Record Job : Type := mkJob {
  job_kind : TaskKind;
  job_repository : option UUID;
  job_user : User
}.

(** The handle given back by the job subsystem: the position of the task
    in the queue and the task. *)
Record JobResult : Type := mkJobResult {
  job_position : nat;
  job_task : Job
}.

(** The state outside the instance: the table of repositories and the
    queue of the job subsystem. *)
Record World : Type := mkWorld {
  table : Table;
  queue : list Job
}.

Definition set_table (t : Table) (w : World) : World :=
  mkWorld t (queue w).

Definition set_queue (q : list Job) (w : World) : World :=
  mkWorld (table w) q.

(** Lift the outcome of a collaborator that has no state of ours. *)
Definition lift_result {S A} (r : exn + A) : M S A :=
  match r with
  | inl e => raise e
  | inr a => ret a
  end.

Definition lift_check {S} (r : option exn) : M S unit :=
  match r with
  | Some e => raise e
  | None => ret tt
  end.

(** ** Collaborators that are not in the source file *)

(** The functions that [GitRepository] calls and that live elsewhere:
    the parent class's [clean], the slug field's [create_slug], the
    GraphQL-safety check, [importlib.util.find_spec], and the git helper.
    Each is a parameter; a collaborator that can raise returns its
    exception. *)
Class Collaborators : Type := {
  (** [CHARFIELD_MAX_LENGTH] of [nautobot.core.constants]: the
      [max_length] of [name], [remote_url] and [branch]. *)
  CHARFIELD_MAX_LENGTH : nat;
  (** The [max_length] that [AutoSlugField] gives the [slug] column. *)
  slug_max_length : nat;
  (** [super().clean()]: the inherited validation. *)
  super_clean : GitRepository -> option exn;
  (** [create_slug(instance, add)]: the call sets the slug of the
      instance; the parameter is the slug it sets. *)
  create_slug : Table -> GitRepository -> bool -> string;
  (** [check_if_key_is_graphql_safe(model_name, key, field_name)]. *)
  check_if_key_is_graphql_safe : string -> string -> string -> option exn;
  (** [find_spec(name)]: the module found under that name, if any. *)
  find_spec : string -> option string;
  (** [get_repo_from_url_to_path_and_from_branch(repository_record)]. *)
  get_repo_from_url_to_path_and_from_branch :
    GitRepository -> exn + (string * string * string);
  (** [GitRepo(path, url)]: the constructor, which may fail. *)
  GitRepo : string -> string -> option exn;
  (** [GitRepo(path, url).checkout(branch, commit_hexsha)]: the commit
      checked out and whether anything changed. *)
  checkout :
    string -> string -> string -> option string -> exn + (string * bool)
}.

Definition dquote : string := String (ascii_of_nat 34) "".

(** The three messages of [clean] and the one of [clone], under the names
    the specification gives these errors. *)
Definition ImmutableFieldError (initial requested : string) : exn :=
  ValidationError
    ("Slug cannot be changed once set. Current slug is " ++ initial
     ++ ", requested slug is " ++ requested).

Definition ReservedNameError (s : string) : exn :=
  ValidationError
    ("Please choose a different slug, as " ++ dquote ++ s ++ dquote
     ++ " is an installed Python package or module.").

Definition ContentOverlapError (url : string) : exn :=
  ValidationError
    ("Another Git repository already configured for remote URL " ++ url
     ++ " provides contents overlapping with this repository.").

Definition InvalidArgumentError : exn :=
  ValueError "You must provide a branch to checkout a specific commit hash.".

Section GitRepository.

Context {collab : Collaborators}.

(** ** [GitRepository.clean] (lines 86-122) *)

(** Lines 108-111: the query for other repositories with the same remote
    URL that provide one of this instance's contents. *)
Definition duplicate_repos (db : Table) (self : GitRepository) : Table :=
  let q :=
    fold_left (fun q item => q_or q (Q_contains item))
      (provided_contents self) Q_empty in
  qs_filter (fun _ => q_eval q)
    (qs_exclude (id_is (id self))
       (qs_filter
          (fun _ row => bool_decide (row_remote_url row = remote_url self))
          db)).

(** The state of [clean] is the instance it validates, which it may
    change; the table is only read. The method is written block by block
    in the order of the source. *)

(** Line 87: [super().clean()]. *)
Definition clean_super : M GitRepository unit :=
  do self <- get;
  lift_check (super_clean self).

(** Lines 89-91: a blank slug is generated now. *)
Definition clean_autogenerate_slug (db : Table) : M GitRepository unit :=
  do self <- get;
  if decide (slug self = "") then
    put (set_slug
           (create_slug db self (negb (present_in_database self))) self)
  else ret tt.

(** Lines 93-97: on update the slug is the one the record was loaded
    with. *)
Definition clean_slug_unchanged : M GitRepository unit :=
  do self <- get;
  if present_in_database self
     && negb (bool_decide (slug self = initial_slug self))
  then raise (ImmutableFieldError (initial_slug self) (slug self))
  else ret tt.

(** Lines 99-105: on create the slug is GraphQL-safe and not the name of
    an installed module. *)
Definition clean_slug_on_create : M GitRepository unit :=
  do self <- get;
  if negb (present_in_database self) then
    run lift_check
          (check_if_key_is_graphql_safe "GitRepository" (slug self) "slug");
    if find_spec (slug self) is Some _
    then raise (ReservedNameError (slug self))
    else ret tt
  else ret tt.

(** Lines 107-116: no other repository at this remote URL provides one
    of this repository's contents. *)
Definition clean_no_overlap (db : Table) : M GitRepository unit :=
  do self <- get;
  match provided_contents self with
  | [] => ret tt
  | _ :: _ =>
      if qs_exists (duplicate_repos db self)
      then raise (ContentOverlapError (remote_url self))
      else ret tt
  end.

(** Lines 118-122: a changed branch or remote URL invalidates
    [current_head]. *)
Definition clean_invalidate_head (db : Table) : M GitRepository unit :=
  do self <- get;
  if present_in_database self then
    do past <- objects_get db (id self);
    if negb (bool_decide (remote_url self = remote_url past))
       || negb (bool_decide (branch self = branch past))
    then put (set_current_head "" self)
    else ret tt
  else ret tt.

Definition clean (db : Table) : M GitRepository unit :=
  run clean_super;
  run clean_autogenerate_slug db;
  run clean_slug_unchanged;
  run clean_slug_on_create;
  run clean_no_overlap db;
  clean_invalidate_head db.

(** ** [GitRepository.sync] (lines 151-169) *)

(** Modelled from the spec: the two enqueue helpers of
    [nautobot.extras.datasources] are not in the source; each puts one
    task of its kind, for this repository and user, on the queue of the
    job subsystem and returns at once with the handle of that task. *)
Definition enqueue (kind : TaskKind) (repository : GitRepository)
    (user : User) : M World JobResult :=
  do w <- get;
  let job := mkJob kind (id repository) user in
  run put (set_queue (queue w ++ [job]) w);
  ret (mkJobResult (length (queue w)) job).

Definition enqueue_git_repository_diff_origin_and_local :=
  enqueue DiffOriginAndLocal.

Definition enqueue_pull_git_repository_and_refresh_data :=
  enqueue PullAndRefreshData.

Definition sync (self : GitRepository) (user : User) (dry_run : bool)
    : M World JobResult :=
  if dry_run then enqueue_git_repository_diff_origin_and_local self user
  else enqueue_pull_git_repository_and_refresh_data self user.

(** ** Persistence *)

(** The values of an instance fit the [max_length] of their columns
    (lines 29, 39, 45 and 52, and the slug field's). *)
Definition fits_columns (self : GitRepository) : bool :=
  (String.length (name self) <=? CHARFIELD_MAX_LENGTH)%nat
  && (String.length (slug self) <=? slug_max_length)%nat
  && (String.length (remote_url self) <=? CHARFIELD_MAX_LENGTH)%nat
  && (String.length (branch self) <=? CHARFIELD_MAX_LENGTH)%nat
  && (String.length (current_head self) <=? 48)%nat.

(** Modelled from the spec: [save] and [delete] are the ORM's and not in
    the source. [save] gives an instance without primary key the default
    one, [pk_default], a fresh [uuid4()], and fills a blank slug as the
    slug field's [pre_save] does. The database refuses a value that is
    too long for its column with [DataError]; an instance that is being
    added is inserted, and a row already under its key is a duplicate;
    a [name] or [slug] that another row has breaks the unique
    constraints of the table. Otherwise the columns are written under the
    key, replacing the row that was there. No validation is run: [clean]
    is not called. *)
Definition Model_save (pk_default : UUID) (self : GitRepository)
    : M World GitRepository :=
  do w <- get;
  let pk := default pk_default (id self) in
  let self :=
    if decide (slug self = "")
    then set_slug (create_slug (table w) self (state_adding self)) self
    else self in
  let others := qs_exclude (id_is (Some pk)) (table w) in
  if negb (fits_columns self)
  then raise (DataError "value too long for type character varying")
  else if state_adding self && bool_decide (is_Some (table w !! pk))
  then raise (IntegrityError "duplicate key value violates unique constraint: id")
  else if qs_exists
       (qs_filter (fun _ row => bool_decide (row_name row = name self)) others)
  then raise (IntegrityError "duplicate key value violates unique constraint: name")
  else if qs_exists
       (qs_filter (fun _ row => bool_decide (row_slug row = slug self)) others)
  then raise (IntegrityError "duplicate key value violates unique constraint: slug")
  else
    let self := set_state_adding false (set_id (Some pk) self) in
    run put (set_table (<[pk := to_row self]> (table w)) w);
    ret self.

(** Modelled from the spec: [delete] removes the row under the instance's
    key and refuses an instance that has none. *)
Definition Model_delete (self : GitRepository) : M World unit :=
  match id self with
  | None =>
      raise (ValueError
        "GitRepository object can't be deleted because its id attribute is set to None.")
  | Some pk =>
      do w <- get;
      put (set_table (delete pk (table w)) w)
  end.

(** ** [GitRepository.clone] (lines 171-222) *)

(** [generated_uuid] is the value of [uuid.uuid4()] on line 194 and
    [pk_default] the one [save] draws for the new primary key. *)
Definition clone (generated_uuid pk_default : UUID) (self : GitRepository)
    (branch_arg head_arg : option string) : M World GitRepository :=
  let cloned_git_repo := set_id None self in
  let cloned_git_repo :=
    set_name (name self ++ " (" ++ uuid_str generated_uuid ++ ")")
      cloned_git_repo in
  let cloned_git_repo :=
    set_slug (slug self ++ "_" ++ uuid_str generated_uuid) cloned_git_repo in
  do '(cloned_git_repo, branch_, head_) <-
    match branch_arg, head_arg with
    | None, None =>
        ret (cloned_git_repo, branch cloned_git_repo,
             Some (current_head cloned_git_repo))
    | Some b, _ =>
        let cloned_git_repo := set_branch b cloned_git_repo in
        let cloned_git_repo :=
          match head_arg with
          | Some h => set_current_head h cloned_git_repo
          | None => cloned_git_repo
          end in
        ret (cloned_git_repo, b, head_arg)
    | None, Some _ =>
        do saved <- Model_save pk_default cloned_git_repo;
        run Model_delete saved;
        raise InvalidArgumentError
    end;
  do cloned_git_repo <- Model_save pk_default cloned_git_repo;
  do '(from_url, to_path, _) <-
    lift_result (get_repo_from_url_to_path_and_from_branch cloned_git_repo);
  do '(_, _) <-
    try_except_reraise
      (run lift_check (GitRepo to_path from_url);
       lift_result (checkout to_path from_url branch_ head_))
      (Model_delete cloned_git_repo);
  ret cloned_git_repo.

End GitRepository.

(** ** Properties the claims are stated with *)

(** Two lists of content kinds share an entry. *)
Definition shares_content (l1 l2 : list string) : Prop :=
  exists item, item ∈ l1 /\ item ∈ l2.

(** Some other persisted record has the remote URL of [self] and shares
    a content kind with it. *)
Definition overlapping_other (db : Table) (self : GitRepository) : Prop :=
  exists k row,
    db !! k = Some row /\ id self <> Some k
    /\ row_remote_url row = remote_url self
    /\ shares_content (provided_contents self) (row_provided_contents row).

(** The invariant of the data model: no two records with the same remote
    URL declare overlapping contents. *)
Definition no_overlap (db : Table) : Prop :=
  forall k1 k2 r1 r2,
    k1 <> k2 -> db !! k1 = Some r1 -> db !! k2 = Some r2 ->
    row_remote_url r1 = row_remote_url r2 ->
    ~ shares_content (row_provided_contents r1) (row_provided_contents r2).

(** No row of the table has this name, or this slug. *)
Definition name_free (db : Table) (n : string) : Prop :=
  map_Forall (fun _ row => row_name row <> n) db.

Definition slug_free (db : Table) (s : string) : Prop :=
  map_Forall (fun _ row => row_slug row <> s) db.

Section Properties.

Context {collab : Collaborators}.

(** The slug that the checks of [clean] see: the instance's, or the
    generated one when the instance's is blank. *)
Definition effective_slug (db : Table) (self : GitRepository) : string :=
  if decide (slug self = "")
  then create_slug db self (negb (present_in_database self))
  else slug self.

(** The instance as the checks of [clean] see it. *)
Definition slug_filled (db : Table) (self : GitRepository) : GitRepository :=
  if decide (slug self = "")
  then set_slug (create_slug db self (negb (present_in_database self))) self
  else self.

(** The checks of [clean] that come before the overlap check raise
    nothing: the inherited validation passes; on update the slug is the
    initial one; on create it is safe and not a module name. *)
Definition slug_checks_pass (db : Table) (self : GitRepository) : Prop :=
  super_clean self = None
  /\ (present_in_database self = true ->
      effective_slug db self = initial_slug self)
  /\ (present_in_database self = false ->
      check_if_key_is_graphql_safe "GitRepository" (effective_slug db self)
        "slug" = None
      /\ find_spec (effective_slug db self) = None).

(** The record that [clone] builds before it saves it, and the one that
    [save] hands back under the key [pk]. *)
Definition clone_candidate (generated_uuid : UUID) (self : GitRepository)
    (branch_arg head_arg : option string) : GitRepository :=
  let c :=
    set_slug (slug self ++ "_" ++ uuid_str generated_uuid)
      (set_name (name self ++ " (" ++ uuid_str generated_uuid ++ ")")
         (set_id None self)) in
  match branch_arg with
  | None => c
  | Some b =>
      match head_arg with
      | Some h => set_current_head h (set_branch b c)
      | None => set_branch b c
      end
  end.

Definition cloned_record (generated_uuid pk : UUID) (self : GitRepository)
    (branch_arg head_arg : option string) : GitRepository :=
  set_state_adding false
    (set_id (Some pk) (clone_candidate generated_uuid self branch_arg head_arg)).

(** The branch and commit that [clone] asks the git helper for. *)
Definition checkout_branch (self : GitRepository)
    (branch_arg : option string) : string :=
  default (branch self) branch_arg.

Definition checkout_head (self : GitRepository)
    (branch_arg head_arg : option string) : option string :=
  match branch_arg with
  | None => Some (current_head self)
  | Some _ => head_arg
  end.

(** The two identifiers drawn by [clone] are fresh for the table: the
    key is unused and no row has the name or the slug of the clone. *)
Definition fresh_for (db : Table) (generated_uuid pk : UUID)
    (self : GitRepository) : Prop :=
  db !! pk = None
  /\ name_free db (name self ++ " (" ++ uuid_str generated_uuid ++ ")")
  /\ slug_free db (slug self ++ "_" ++ uuid_str generated_uuid).

(** The table has no row under another key with the name or the slug of
    the instance. *)
Definition unique_but (db : Table) (pk : UUID) (c : GitRepository) : Prop :=
  map_Forall
    (fun k row => k <> pk -> row_name row <> name c /\ row_slug row <> slug c)
    db.

(** [save] accepts the instance under the key [pk]: its values fit their
    columns, an instance that is being added finds the key unused, and
    its name and slug are those of no other row. *)
Definition save_accepts (db : Table) (pk : UUID) (c : GitRepository) : Prop :=
  fits_columns c = true
  /\ (state_adding c = true -> db !! pk = None)
  /\ unique_but db pk c.

End Properties.

(** ** Concrete collaborators *)

Definition is_lower (c : ascii) : bool :=
  (97 <=? nat_of_ascii c)%nat && (nat_of_ascii c <=? 122)%nat.

Definition is_upper (c : ascii) : bool :=
  (65 <=? nat_of_ascii c)%nat && (nat_of_ascii c <=? 90)%nat.

Definition is_digit (c : ascii) : bool :=
  (48 <=? nat_of_ascii c)%nat && (nat_of_ascii c <=? 57)%nat.

(** Modelled from the spec: the slug function of the slug field is not in
    the source; the slug is derived from the name, lowercase, with every
    character that is not alphanumeric turned into an underscore. *)
Fixpoint slugify_dashes_to_underscores (s : string) : string :=
  match s with
  | EmptyString => EmptyString
  | String c s' =>
      String
        (if is_upper c then ascii_of_nat (nat_of_ascii c + 32)
         else if is_lower c || is_digit c then c
         else "_"%char)
        (slugify_dashes_to_underscores s')
  end.

(** Collaborators for the examples: the inherited validation passes,
    slugs are derived from the name, every key is GraphQL-safe, [os] is
    the one installed module, and the git helper fails for the remote
    [https://example.com/gone.git] and otherwise checks out a fixed
    commit. *)
Definition example_collaborators : Collaborators := {|
  CHARFIELD_MAX_LENGTH := 255;
  slug_max_length := 255;
  super_clean := fun _ => None;
  create_slug := fun _ r _ => slugify_dashes_to_underscores (name r);
  check_if_key_is_graphql_safe := fun _ _ _ => None;
  find_spec := fun s => if decide (s = "os") then Some "os.py" else None;
  get_repo_from_url_to_path_and_from_branch :=
    fun r => inr (remote_url r, "/opt/nautobot/git/" ++ slug r, branch r);
  GitRepo := fun _ _ => None;
  checkout := fun _ url _ _ =>
    if decide (url = "https://example.com/gone.git")
    then inl (OtherError "repository not found")
    else inr ("bbb", true)
|}.

Definition example_row : Row :=
  mkRow "configs" "configs" "https://example.com/r.git" "main" "aaa" None
    ["extras.configcontext"].

Definition example_gone_row : Row :=
  mkRow "gone" "gone" "https://example.com/gone.git" "main" "" None
    ["extras.job"].

Definition example_db : Table :=
  <[ 1%N := example_row ]> (<[ 2%N := example_gone_row ]> ∅).

Definition example_world : World := mkWorld example_db [].

(** The value drawn by [uuid4()] in the examples:
    [12345678-1234-5678-1234-567812345670]. *)
Definition example_uuid : UUID := 24197857161011715162171839636988778096%N.

(** A second repository at the remote URL of the first, providing the
    same content kind. *)
Definition example_candidate : GitRepository :=
  new_instance (Some 7%N)
    (mkRow "more configs" "more_configs" "https://example.com/r.git" "main"
       "" None ["extras.configcontext"; "extras.job"]).

(** What [clean] may change of an instance: a blank slug, and
    [current_head] by emptying it. *)
Definition same_but_slug_head (self self' : GitRepository) : Prop :=
  id self' = id self
  /\ name self' = name self
  /\ remote_url self' = remote_url self
  /\ branch self' = branch self
  /\ secrets_group self' = secrets_group self
  /\ provided_contents self' = provided_contents self
  /\ state_adding self' = state_adding self
  /\ initial_slug self' = initial_slug self
  /\ (slug self <> "" -> slug self' = slug self)
  /\ (current_head self' = current_head self \/ current_head self' = "").

(** What [clone] may change of the world: the row under the new key. *)
Definition same_but_row (pk : UUID) (w w' : World) : Prop :=
  queue w' = queue w /\ delete pk (table w') = delete pk (table w).

(** ** [GitRepository.filesystem_path] (lines 147-149) *)

Definition starts_with_sep (s : string) : bool :=
  match s with
  | String c _ => bool_decide (c = "/"%char)
  | EmptyString => false
  end.

Fixpoint ends_with_sep (s : string) : bool :=
  match s with
  | EmptyString => false
  | String c EmptyString => bool_decide (c = "/"%char)
  | String _ s' => ends_with_sep s'
  end.

(** [os.path.join(a, b)] on POSIX: an absolute [b] replaces [a]; an
    empty [a], or one that ends with the separator, takes [b] as it is;
    otherwise the separator comes between the two. *)
Definition os_path_join (a b : string) : string :=
  if starts_with_sep b then b
  else if bool_decide (a = "") || ends_with_sep a then a ++ b
  else a ++ "/" ++ b.

(** The property [filesystem_path]; [GIT_ROOT] is [settings.GIT_ROOT]. *)
Definition filesystem_path (GIT_ROOT : string) (self : GitRepository)
    : string :=
  os_path_join GIT_ROOT (slug self).

(** ** Reading a UUID back from its text *)

Definition digit_value (c : ascii) : N :=
  let n := N_of_ascii c in
  if (n <? 58)%N then (n - 48)%N else (n - 87)%N.

(** The number written by a string of lowercase hexadecimal digits,
    after the digits already read into [acc]. *)
Fixpoint hex_value (acc : N) (s : string) : N :=
  match s with
  | EmptyString => acc
  | String c s' => hex_value (16 * acc + digit_value c) s'
  end.

(** Collaborators for the examples in which the URL of the clone cannot
    be computed: as [example_collaborators], but
    [get_repo_from_url_to_path_and_from_branch] raises. *)
Definition failing_url_collaborators : Collaborators := {|
  CHARFIELD_MAX_LENGTH := 255;
  slug_max_length := 255;
  super_clean := fun _ => None;
  create_slug := fun _ r _ => slugify_dashes_to_underscores (name r);
  check_if_key_is_graphql_safe := fun _ _ _ => None;
  find_spec := fun s => if decide (s = "os") then Some "os.py" else None;
  get_repo_from_url_to_path_and_from_branch :=
    fun _ => inl (OtherError "secret not found");
  GitRepo := fun _ _ => None;
  checkout := fun _ _ _ _ => inr ("bbb", true)
|}.

(** A row of a repository that was never synchronised and whose record
    is not in [example_db]. *)
Definition example_unsaved_row : Row :=
  mkRow "templates" "templates" "https://example.com/t.git" "main" "" None
    ["extras.exporttemplate"].

(** Collaborators for the examples in which the checkout is interrupted
    from the keyboard: as [example_collaborators], but [checkout] raises
    [KeyboardInterrupt]. *)
Definition interrupted_collaborators : Collaborators := {|
  CHARFIELD_MAX_LENGTH := 255;
  slug_max_length := 255;
  super_clean := fun _ => None;
  create_slug := fun _ r _ => slugify_dashes_to_underscores (name r);
  check_if_key_is_graphql_safe := fun _ _ _ => None;
  find_spec := fun s => if decide (s = "os") then Some "os.py" else None;
  get_repo_from_url_to_path_and_from_branch :=
    fun r => inr (remote_url r, "/opt/nautobot/git/" ++ slug r, branch r);
  GitRepo := fun _ _ => None;
  checkout := fun _ _ _ _ => inl (BaseExceptionOnly "KeyboardInterrupt")
|}.

Fixpoint repeat_char (c : ascii) (n : nat) : string :=
  match n with
  | O => EmptyString
  | S n' => String c (repeat_char c n')
  end.

(** A repository whose name has 230 characters: it fits the column, and
    the name of a clone of it, 39 characters longer, does not. *)
Definition example_long_row : Row :=
  mkRow (repeat_char "n" 230) "long" "https://example.com/l.git" "main" ""
    None [].

Definition example_long_world : World :=
  mkWorld (<[ 3%N := example_long_row ]> example_db) [].

(** A new repository at the remote URL of the first one, providing the
    same content kind, whose slug is the name of an installed module. *)
Definition example_reserved_candidate : GitRepository :=
  new_instance (Some 7%N)
    (mkRow "os" "os" "https://example.com/r.git" "main" "" None
       ["extras.configcontext"]).

(** ** Sanity checks of the definitions *)

Example uuid_str_example :
  uuid_str example_uuid = "12345678-1234-5678-1234-567812345670".
Proof. vm_compute. reflexivity. Qed.

Example slugify_example :
  slugify_dashes_to_underscores "Golden Config-2" = "golden_config_2".
Proof. reflexivity. Qed.

Example qs_exists_example :
  qs_exists
    (qs_filter (fun _ row => bool_decide (row_branch row = "main")) example_db)
  = true.
Proof. vm_compute. reflexivity. Qed.

Example q_or_example :
  fold_left (fun q item => q_or q (Q_contains item)) ["a"; "b"; "c"] Q_empty
  = Q_or (Q_or (Q_contains "a") (Q_contains "b")) (Q_contains "c").
Proof. reflexivity. Qed.

(** A new repository with a module's name as slug is refused. *)
Example clean_reserved_name_example :
  clean (collab := example_collaborators) example_db
    (new_instance (Some 7%N)
       (mkRow "os" "os" "https://example.com/os.git" "main" "" None []))
  = (inl (ReservedNameError "os"),
     new_instance (Some 7%N)
       (mkRow "os" "os" "https://example.com/os.git" "main" "" None [])).
Proof. vm_compute. reflexivity. Qed.

(** ** Lemmas on querysets *)

Lemma qs_exists_true (qs : Table) :
  qs_exists qs = true <-> exists k row, qs !! k = Some row.
Proof.
  unfold qs_exists. rewrite bool_decide_eq_true. split.
  - intros Hne. apply map_choose in Hne. exact Hne.
  - intros (k & row & Hk) ->. by rewrite lookup_empty in Hk.
Qed.

Lemma qs_filter_lookup (p : UUID -> Row -> bool) (qs : Table) k row :
  qs_filter p qs !! k = Some row <-> qs !! k = Some row /\ p k row = true.
Proof. unfold qs_filter. by rewrite map_lookup_filter_Some. Qed.

Lemma qs_exclude_lookup (p : UUID -> Row -> bool) (qs : Table) k row :
  qs_exclude p qs !! k = Some row <-> qs !! k = Some row /\ p k row = false.
Proof. unfold qs_exclude. by rewrite map_lookup_filter_Some. Qed.

Lemma id_is_false (v : option UUID) k row :
  id_is v k row = false <-> v <> Some k.
Proof. unfold id_is. by rewrite bool_decide_eq_false. Qed.

(** ** Lemmas on [Q] objects *)

Lemma q_or_contains_not_empty q item : q_or q (Q_contains item) <> Q_empty.
Proof. by destruct q. Qed.

Lemma q_eval_q_or_contains q item row :
  q <> Q_empty ->
  q_eval (q_or q (Q_contains item)) row
  = q_eval q row || bool_decide (item ∈ row_provided_contents row).
Proof. by destruct q. Qed.

(** The loop of lines 109-110, started from a [Q] that is not empty. *)
Lemma q_eval_fold_from (items : list string) q row :
  q <> Q_empty ->
  q_eval (fold_left (fun q item => q_or q (Q_contains item)) items q) row = true
  <-> q_eval q row = true
      \/ exists item, item ∈ items /\ item ∈ row_provided_contents row.
Proof.
  revert q. induction items as [|x items IH]; intros q Hq; simpl.
  - split; [by left|]. intros [H|(item & Hin & _)]; [done|].
    by apply elem_of_nil in Hin.
  - rewrite IH by apply q_or_contains_not_empty.
    rewrite q_eval_q_or_contains by done.
    rewrite orb_true_iff, bool_decide_eq_true. split.
    + intros [[H|H]|(item & Hin & Hrow)].
      * by left.
      * right. exists x. split; [apply elem_of_cons; by left|done].
      * right. exists item. split; [apply elem_of_cons; by right|done].
    + intros [H|(item & Hin & Hrow)].
      * left. by left.
      * apply elem_of_cons in Hin as [->|Hin].
        -- left. by right.
        -- right. by exists item.
Qed.

(** The [Q] built from a list that is not empty matches the rows that
    have one of its items. *)
Lemma q_eval_fold (items : list string) row :
  items <> [] ->
  q_eval (fold_left (fun q item => q_or q (Q_contains item)) items Q_empty) row
    = true
  <-> shares_content items (row_provided_contents row).
Proof.
  destruct items as [|x items]; [done|]. intros _. simpl.
  rewrite q_eval_fold_from by done. simpl. rewrite bool_decide_eq_true.
  unfold shares_content. split.
  - intros [H|(item & Hin & Hrow)].
    + exists x. split; [apply elem_of_cons; by left|done].
    + exists item. split; [apply elem_of_cons; by right|done].
  - intros (item & Hin & Hrow).
    apply elem_of_cons in Hin as [->|Hin]; [by left|].
    right. by exists item.
Qed.

Section Lemmas.

Context {collab : Collaborators}.

(** The query of lines 108-112 finds a row exactly when another record
    overlaps with the instance. *)
Lemma duplicate_repos_exists (db : Table) (self : GitRepository) :
  provided_contents self <> [] ->
  qs_exists (duplicate_repos db self) = true <-> overlapping_other db self.
Proof.
  intros Hne. rewrite qs_exists_true. unfold duplicate_repos, overlapping_other.
  split.
  - intros (k & row & Hk). exists k, row.
    apply qs_filter_lookup in Hk as [Hk Hq].
    apply qs_exclude_lookup in Hk as [Hk Hid].
    apply qs_filter_lookup in Hk as [Hk Hurl].
    apply bool_decide_eq_true in Hurl. apply id_is_false in Hid.
    apply q_eval_fold in Hq; done.
  - intros (k & row & Hk & Hid & Hurl & Hshare). exists k, row.
    apply qs_filter_lookup. split; [|by apply q_eval_fold].
    apply qs_exclude_lookup. split; [|by apply id_is_false].
    apply qs_filter_lookup. split; [done|]. by apply bool_decide_eq_true.
Qed.

Lemma overlapping_other_nil (db : Table) (self : GitRepository) :
  provided_contents self = [] -> ~ overlapping_other db self.
Proof.
  intros Hnil (k & row & _ & _ & _ & item & Hin & _).
  rewrite Hnil in Hin. by apply elem_of_nil in Hin.
Qed.

(** Whether another record overlaps can be decided, by the query. *)
Lemma overlapping_other_dec (db : Table) (self : GitRepository) :
  overlapping_other db self \/ ~ overlapping_other db self.
Proof.
  destruct (decide (provided_contents self = [])) as [Hnil|Hne].
  - right. by apply overlapping_other_nil.
  - destruct (qs_exists (duplicate_repos db self)) eqn:Hex.
    + left. by apply duplicate_repos_exists.
    + right. intros Hov. apply duplicate_repos_exists in Hov; [|done].
      congruence.
Qed.

(** The outcome of the overlap check, for any instance. *)
Lemma clean_no_overlap_raises (db : Table) (self : GitRepository) :
  overlapping_other db self ->
  clean_no_overlap db self = (inl (ContentOverlapError (remote_url self)), self).
Proof.
  intros Hov. unfold clean_no_overlap, bind, get.
  destruct (provided_contents self) eqn:Hpc.
  - by apply overlapping_other_nil in Hov.
  - assert (qs_exists (duplicate_repos db self) = true) as ->; [|done].
    apply duplicate_repos_exists; [by rewrite Hpc|done].
Qed.

Lemma clean_no_overlap_passes (db : Table) (self : GitRepository) :
  ~ overlapping_other db self ->
  clean_no_overlap db self = (inr tt, self).
Proof.
  intros Hov. unfold clean_no_overlap, bind, get.
  destruct (provided_contents self) eqn:Hpc; [done|].
  destruct (qs_exists (duplicate_repos db self)) eqn:Hex; [|done].
  exfalso. apply Hov. apply duplicate_repos_exists; [by rewrite Hpc|done].
Qed.

End Lemmas.

(** ** Lemmas on the monad *)

Lemma bind_ok {S A B} (m : M S A) (k : A -> M S B) s a s' :
  m s = (inr a, s') -> bind m k s = k a s'.
Proof. unfold bind. by intros ->. Qed.

Lemma bind_err {S A B} (m : M S A) (k : A -> M S B) s e s' :
  m s = (inl e, s') -> bind m k s = (inl e, s').
Proof. unfold bind. by intros ->. Qed.

(** ** Lemmas on the messages *)

Lemma ContentOverlapError_not_ImmutableFieldError url a b :
  ContentOverlapError url <> ImmutableFieldError a b.
Proof. discriminate. Qed.

Section CleanLemmas.

Context {collab : Collaborators}.

Lemma slug_filled_slug db self :
  slug (slug_filled db self) = effective_slug db self.
Proof. unfold slug_filled, effective_slug. by case_decide. Qed.

Lemma slug_filled_fields db self :
  id (slug_filled db self) = id self
  /\ remote_url (slug_filled db self) = remote_url self
  /\ branch (slug_filled db self) = branch self
  /\ current_head (slug_filled db self) = current_head self
  /\ provided_contents (slug_filled db self) = provided_contents self
  /\ present_in_database (slug_filled db self) = present_in_database self
  /\ initial_slug (slug_filled db self) = initial_slug self.
Proof. unfold slug_filled. by case_decide. Qed.

Lemma slug_filled_overlapping db self :
  overlapping_other db (slug_filled db self) <-> overlapping_other db self.
Proof.
  unfold overlapping_other.
  destruct (slug_filled_fields db self) as (-> & -> & _ & _ & -> & _). done.
Qed.

Lemma clean_super_ok self :
  super_clean self = None -> clean_super self = (inr tt, self).
Proof. unfold clean_super, bind, get. by intros ->. Qed.

Lemma clean_autogenerate_slug_eq db self :
  clean_autogenerate_slug db self = (inr tt, slug_filled db self).
Proof.
  unfold clean_autogenerate_slug, slug_filled, bind, get.
  by case_decide.
Qed.

Lemma clean_slug_unchanged_ok self :
  (present_in_database self = true -> slug self = initial_slug self) ->
  clean_slug_unchanged self = (inr tt, self).
Proof.
  intros H. unfold clean_slug_unchanged, bind, get.
  destruct (present_in_database self); [|done].
  by rewrite bool_decide_eq_true_2 by auto.
Qed.

Lemma clean_slug_unchanged_raises self :
  present_in_database self = true -> slug self <> initial_slug self ->
  clean_slug_unchanged self
  = (inl (ImmutableFieldError (initial_slug self) (slug self)), self).
Proof.
  intros Hp Hne. unfold clean_slug_unchanged, bind, get.
  rewrite Hp. by rewrite bool_decide_eq_false_2.
Qed.

Lemma clean_slug_on_create_ok self :
  (present_in_database self = false ->
   check_if_key_is_graphql_safe "GitRepository" (slug self) "slug" = None
   /\ find_spec (slug self) = None) ->
  clean_slug_on_create self = (inr tt, self).
Proof.
  intros H. unfold clean_slug_on_create, bind, get.
  destruct (present_in_database self); [done|].
  destruct H as [-> ->]; done.
Qed.

(** When the checks on the slug pass, [clean] is its last two blocks, run
    on the instance with its slug filled in. *)
Lemma clean_after_slug_checks db self :
  slug_checks_pass db self ->
  clean db self
  = (run clean_no_overlap db; clean_invalidate_head db) (slug_filled db self).
Proof.
  intros (Hsuper & Hupd & Hnew). unfold clean.
  rewrite (bind_ok _ _ _ _ _ (clean_super_ok _ Hsuper)).
  rewrite (bind_ok _ _ _ _ _ (clean_autogenerate_slug_eq db self)).
  destruct (slug_filled_fields db self) as (_ & _ & _ & _ & _ & Hp & Hi).
  rewrite (bind_ok _ _ _ tt (slug_filled db self)).
  2:{ apply clean_slug_unchanged_ok.
      rewrite slug_filled_slug, Hp, Hi. exact Hupd. }
  rewrite (bind_ok _ _ _ tt (slug_filled db self)); [done|].
  apply clean_slug_on_create_ok. rewrite slug_filled_slug, Hp. exact Hnew.
Qed.

(** On update, a slug that is not the initial one stops [clean]. *)
Lemma clean_slug_changed db self :
  super_clean self = None ->
  present_in_database self = true ->
  effective_slug db self <> initial_slug self ->
  clean db self
  = (inl (ImmutableFieldError (initial_slug self) (effective_slug db self)),
     slug_filled db self).
Proof.
  intros Hsuper Hp Hne. unfold clean.
  rewrite (bind_ok _ _ _ _ _ (clean_super_ok _ Hsuper)).
  rewrite (bind_ok _ _ _ _ _ (clean_autogenerate_slug_eq db self)).
  destruct (slug_filled_fields db self) as (_ & _ & _ & _ & _ & Hp' & Hi).
  erewrite bind_err; [reflexivity|].
  rewrite <- Hi, <- slug_filled_slug.
  apply clean_slug_unchanged_raises; [by rewrite Hp'|].
  by rewrite slug_filled_slug, Hi.
Qed.

(** The last block, for an instance whose row is in the table. *)
Lemma clean_invalidate_head_present db self k past :
  present_in_database self = true -> id self = Some k ->
  db !! k = Some past ->
  clean_invalidate_head db self
  = (inr tt,
     if negb (bool_decide (remote_url self = row_remote_url past))
        || negb (bool_decide (branch self = row_branch past))
     then set_current_head "" self else self).
Proof.
  intros Hp Hid Hk. unfold clean_invalidate_head, bind, get, objects_get.
  rewrite Hp, Hid, Hk. simpl.
  by destruct (negb _ || negb _).
Qed.

(** The last block raises nothing but [DoesNotExist]. *)
Lemma clean_invalidate_head_outcome db self e :
  fst (clean_invalidate_head db self) = inl e -> e = DoesNotExist.
Proof.
  unfold clean_invalidate_head, bind, get, objects_get.
  destruct (present_in_database self); [|done].
  destruct (id self) as [k|]; [|simpl; congruence].
  destruct (db !! k) as [row|]; [|simpl; congruence].
  simpl. by destruct (negb _ || negb _).
Qed.

End CleanLemmas.

(** ** Validation: the claims on [clean] *)

Section CleanTheorems.

Context {collab : Collaborators}.

(** C1. When [clean] validates an update of a persisted record, a remote
    URL or branch that differs from the persisted one leaves [current_head]
    empty in the validated instance, and otherwise [current_head] is the
    one the instance had; remote URL and branch are not touched. *)
Theorem clean_invalidates_current_head
    (db : Table) (self : GitRepository) (k : UUID) (past : Row) :
  present_in_database self = true ->
  id self = Some k ->
  db !! k = Some past ->
  slug_checks_pass db self ->
  ~ overlapping_other db self ->
  exists self',
    clean db self = (inr tt, self')
    /\ remote_url self' = remote_url self
    /\ branch self' = branch self
    /\ (remote_url self <> row_remote_url past
        \/ branch self <> row_branch past ->
        current_head self' = "")
    /\ (remote_url self = row_remote_url past
        /\ branch self = row_branch past ->
        current_head self' = current_head self).
Proof.
  intros Hp Hid Hk Hchecks Hov.
  rewrite (clean_after_slug_checks db self Hchecks).
  destruct (slug_filled_fields db self)
    as (Hid' & Hurl & Hbr & Hhead & _ & Hp' & _).
  rewrite (bind_ok _ _ _ tt (slug_filled db self)).
  2:{ apply clean_no_overlap_passes. by rewrite slug_filled_overlapping. }
  rewrite (clean_invalidate_head_present db _ k past)
    by (by rewrite ?Hp', ?Hid').
  rewrite Hurl, Hbr. eexists. split; [reflexivity|].
  destruct (decide (remote_url self = row_remote_url past)) as [Eu|Nu];
    destruct (decide (branch self = row_branch past)) as [Eb|Nb].
  - rewrite !bool_decide_eq_true_2 by done. simpl.
    repeat split; try done. intros [?|?]; done.
  - rewrite (bool_decide_eq_false_2 (branch self = _)) by done.
    rewrite orb_true_r. simpl. repeat split; try done. by intros [_ ?].
  - rewrite (bool_decide_eq_false_2 (remote_url self = _)) by done.
    simpl. repeat split; try done. by intros [? _].
  - rewrite (bool_decide_eq_false_2 (remote_url self = _)) by done.
    simpl. repeat split; try done. by intros [? _].
Qed.

(** C2. For a candidate that passes the checks on its slug, [clean] fails
    with the overlap error exactly when some other persisted record has
    the candidate's remote URL and shares a content kind with it, and the
    error names that URL; with no contents the overlap check lets the
    candidate through and [clean] never fails with the overlap error. *)
Theorem clean_content_overlap (db : Table) (self : GitRepository) :
  slug_checks_pass db self ->
  (provided_contents self <> [] ->
   ((exists url, fst (clean db self) = inl (ContentOverlapError url))
    <-> overlapping_other db self)
   /\ (overlapping_other db self ->
       fst (clean db self) = inl (ContentOverlapError (remote_url self))))
  /\ (provided_contents self = [] ->
      clean_no_overlap db self = (inr tt, self)
      /\ forall url, fst (clean db self) <> inl (ContentOverlapError url)).
Proof.
  intros Hchecks.
  rewrite (clean_after_slug_checks db self Hchecks).
  destruct (slug_filled_fields db self) as (_ & Hurl & _).
  assert (Hraise : overlapping_other db self ->
    fst ((run clean_no_overlap db; clean_invalidate_head db)
           (slug_filled db self))
    = inl (ContentOverlapError (remote_url self))).
  { intros Hov. erewrite bind_err.
    2:{ apply clean_no_overlap_raises. by rewrite slug_filled_overlapping. }
    simpl. by rewrite Hurl. }
  assert (Hpass : ~ overlapping_other db self -> forall url,
    fst ((run clean_no_overlap db; clean_invalidate_head db)
           (slug_filled db self))
    <> inl (ContentOverlapError url)).
  { intros Hov url.
    rewrite (bind_ok _ _ _ tt (slug_filled db self)).
    2:{ apply clean_no_overlap_passes. by rewrite slug_filled_overlapping. }
    intros Hfail. by apply clean_invalidate_head_outcome in Hfail. }
  split.
  - intros _. split; [|exact Hraise]. split.
    + intros [url Hfail].
      destruct (overlapping_other_dec db self) as [Hov|Hov]; [done|].
      by apply Hpass in Hfail.
    + intros Hov. eexists. by apply Hraise.
  - intros Hnil. split.
    + apply clean_no_overlap_passes. by apply overlapping_other_nil.
    + apply Hpass. by apply overlapping_other_nil.
Qed.

(** C3, as the code has it. On update, when the inherited validation
    passes: a slug that, once a blank slug has been generated again,
    differs from the slug the record was loaded with makes [clean] fail
    with the immutable-slug error, which names both slugs; a slug that is
    the same never does; and a slug that is not blank is taken as it is. *)
Theorem clean_slug_immutable (db : Table) (self : GitRepository) :
  present_in_database self = true ->
  super_clean self = None ->
  (effective_slug db self <> initial_slug self ->
   clean db self
   = (inl (ImmutableFieldError (initial_slug self) (effective_slug db self)),
      slug_filled db self))
  /\ (effective_slug db self = initial_slug self ->
      forall a b, fst (clean db self) <> inl (ImmutableFieldError a b))
  /\ (slug self <> "" -> effective_slug db self = slug self).
Proof.
  intros Hp Hsuper. split; [|split].
  - by apply clean_slug_changed.
  - intros Hsame a b.
    assert (Hchecks : slug_checks_pass db self).
    { split; [done|]. split; [done|]. rewrite Hp. discriminate. }
    rewrite (clean_after_slug_checks db self Hchecks).
    destruct (overlapping_other_dec db self) as [Hov|Hov].
    + erewrite bind_err.
      2:{ apply clean_no_overlap_raises. by rewrite slug_filled_overlapping. }
      simpl. intros Hfail. discriminate Hfail.
    + rewrite (bind_ok _ _ _ tt (slug_filled db self)).
      2:{ apply clean_no_overlap_passes. by rewrite slug_filled_overlapping. }
      intros Hfail. by apply clean_invalidate_head_outcome in Hfail.
  - intros Hne. unfold effective_slug. by case_decide.
Qed.

(** C10. A persisted record whose remote URL and contents are those of
    its row, in a table that satisfies the no-overlap invariant, passes
    the overlap check: the query leaves the record itself out. Run as an
    update, with the inherited validation passing, [clean] never fails on
    it with the overlap error. *)
Theorem clean_no_self_conflict
    (db : Table) (self : GitRepository) (k : UUID) (row : Row) :
  no_overlap db ->
  id self = Some k ->
  db !! k = Some row ->
  remote_url self = row_remote_url row ->
  provided_contents self = row_provided_contents row ->
  clean_no_overlap db self = (inr tt, self)
  /\ (present_in_database self = true -> super_clean self = None ->
      forall url, fst (clean db self) <> inl (ContentOverlapError url)).
Proof.
  intros Hinv Hid Hk Hurl Hpc.
  assert (Hov : ~ overlapping_other db self).
  { intros (k' & row' & Hk' & Hne & Hurl' & Hshare).
    rewrite Hpc in Hshare.
    apply (Hinv k k' row row'); try done; [|congruence].
    intros ->. by rewrite Hid in Hne. }
  split; [by apply clean_no_overlap_passes|].
  intros Hp Hsuper url.
  destruct (decide (effective_slug db self = initial_slug self)) as [Hs|Hs].
  - assert (Hchecks : slug_checks_pass db self).
    { split; [done|]. split; [done|]. rewrite Hp. discriminate. }
    rewrite (clean_after_slug_checks db self Hchecks).
    rewrite (bind_ok _ _ _ tt (slug_filled db self)).
    2:{ apply clean_no_overlap_passes. by rewrite slug_filled_overlapping. }
    intros Hfail. by apply clean_invalidate_head_outcome in Hfail.
  - rewrite (clean_slug_changed db self Hsuper Hp Hs). simpl.
    intros Hfail. discriminate Hfail.
Qed.

End CleanTheorems.

(** *** The claims on [clean] at concrete inputs *)

Lemma example_checks_pass_update (self : GitRepository) :
  present_in_database self = true ->
  effective_slug (collab := example_collaborators) example_db self
  = initial_slug self ->
  slug_checks_pass (collab := example_collaborators) example_db self.
Proof.
  intros Hp Hs. split; [reflexivity|]. split; [done|].
  rewrite Hp. discriminate.
Defined.

Lemma clean_invalidates_current_head_witness :
  exists self',
    clean (collab := example_collaborators) example_db
      (set_branch "dev" (from_db 1%N example_row)) = (inr tt, self')
    /\ remote_url self' = "https://example.com/r.git"
    /\ branch self' = "dev"
    /\ current_head self' = "".
Proof.
  destruct (clean_invalidates_current_head (collab := example_collaborators)
              example_db (set_branch "dev" (from_db 1%N example_row))
              1%N example_row)
    as (self' & Hclean & Hurl & Hbr & Hchanged & _).
  - reflexivity.
  - reflexivity.
  - reflexivity.
  - apply example_checks_pass_update; reflexivity.
  - intros Hov. apply duplicate_repos_exists in Hov; [|discriminate].
    vm_compute in Hov. discriminate Hov.
  - exists self'. split; [exact Hclean|]. split; [exact Hurl|].
    split; [exact Hbr|]. apply Hchanged. right. discriminate.
Defined.

Lemma example_candidate_checks_pass :
  slug_checks_pass (collab := example_collaborators) example_db
    example_candidate.
Proof.
  split; [reflexivity|]. split; [discriminate|].
  intros _. split; reflexivity.
Defined.

Lemma clean_content_overlap_witness :
  overlapping_other example_db example_candidate
  /\ fst (clean (collab := example_collaborators) example_db example_candidate)
     = inl (ContentOverlapError "https://example.com/r.git").
Proof.
  assert (Hov : overlapping_other example_db example_candidate).
  { apply duplicate_repos_exists; [discriminate|]. vm_compute. reflexivity. }
  split; [exact Hov|].
  destruct (clean_content_overlap (collab := example_collaborators)
              example_db example_candidate example_candidate_checks_pass)
    as [Hne _].
  destruct (Hne ltac:(discriminate)) as [_ Hraise].
  exact (Hraise Hov).
Defined.

(** C2, as the claim states it, fails: a new candidate that overlaps
    with a persisted record, and whose slug is the name of an installed
    module, is refused for its slug; the overlap check is not reached. *)
Lemma clean_reserved_slug_counterexample :
  present_in_database example_reserved_candidate = false
  /\ provided_contents example_reserved_candidate <> []
  /\ overlapping_other example_db example_reserved_candidate
  /\ clean (collab := example_collaborators) example_db
       example_reserved_candidate
     = (inl (ReservedNameError "os"), example_reserved_candidate)
  /\ forall url, ReservedNameError "os" <> ContentOverlapError url.
Proof.
  split; [reflexivity|]. split; [discriminate|]. split.
  - apply duplicate_repos_exists; [discriminate|]. vm_compute. reflexivity.
  - split; [vm_compute; reflexivity|]. intros url. discriminate.
Qed.

Lemma clean_slug_immutable_witness :
  clean (collab := example_collaborators) example_db
    (set_slug "settings" (from_db 1%N example_row))
  = (inl (ImmutableFieldError "configs" "settings"),
     set_slug "settings" (from_db 1%N example_row)).
Proof.
  destruct (clean_slug_immutable (collab := example_collaborators) example_db
              (set_slug "settings" (from_db 1%N example_row)))
    as (Hchanged & _ & _).
  - reflexivity.
  - reflexivity.
  - apply Hchanged. discriminate.
Defined.

(** C3, as the claim states it, fails: an update that blanks the slug of
    a persisted record has a slug that differs from the loaded one, and
    validation passes, with the slug generated again from the name. *)
Lemma clean_blank_slug_counterexample :
  let self := set_slug "" (from_db 1%N example_row) in
  present_in_database self = true
  /\ slug self <> initial_slug self
  /\ clean (collab := example_collaborators) example_db self
     = (inr tt, from_db 1%N example_row).
Proof.
  split; [reflexivity|]. split; [discriminate|]. vm_compute. reflexivity.
Qed.

Lemma example_db_no_overlap : no_overlap example_db.
Proof.
  intros k1 k2 r1 r2 Hne H1 H2 Hurl.
  unfold example_db in H1, H2.
  apply lookup_insert_Some in H1 as [[<- <-]|[Hk1 H1]];
    apply lookup_insert_Some in H2 as [[<- <-]|[Hk2 H2]]; try done.
  - apply lookup_insert_Some in H2 as [[<- <-]|[_ H2]]; [done|].
    by rewrite lookup_empty in H2.
  - apply lookup_insert_Some in H1 as [[<- <-]|[_ H1]]; [done|].
    by rewrite lookup_empty in H1.
  - apply lookup_insert_Some in H1 as [[<- <-]|[_ H1]];
      [|by rewrite lookup_empty in H1].
    apply lookup_insert_Some in H2 as [[<- <-]|[_ H2]]; [done|].
    by rewrite lookup_empty in H2.
Defined.

Lemma clean_no_self_conflict_witness :
  clean_no_overlap example_db (from_db 1%N example_row)
  = (inr tt, from_db 1%N example_row)
  /\ forall url,
       fst (clean (collab := example_collaborators) example_db
              (from_db 1%N example_row))
       <> inl (ContentOverlapError url).
Proof.
  destruct (clean_no_self_conflict (collab := example_collaborators)
              example_db (from_db 1%N example_row) 1%N example_row)
    as [Hcheck Hclean].
  - exact example_db_no_overlap.
  - reflexivity.
  - reflexivity.
  - reflexivity.
  - reflexivity.
  - split; [exact Hcheck|]. apply Hclean; reflexivity.
Defined.

(** ** Lemmas on strings *)

Lemma append_not_self (s t : string) : t <> "" -> s ++ t <> s.
Proof.
  intros Ht. induction s as [|c s IH]; simpl; [done|].
  intros [= H]. by apply IH.
Qed.

Lemma append_String_not_empty (s : string) c t : s ++ String c t <> "".
Proof. by destruct s. Qed.

(** ** Lemmas on persistence *)

Lemma world_eta (w : World) : set_table (table w) w = w.
Proof. by destruct w. Qed.

Lemma qs_exists_unique (db : Table) (p : UUID -> Row -> bool) pk :
  map_Forall (fun k row => k <> pk -> p k row = false) db ->
  qs_exists (qs_filter p (qs_exclude (id_is (Some pk)) db)) = false.
Proof.
  intros Hfree. destruct (qs_exists _) eqn:Hex; [|done].
  apply qs_exists_true in Hex as (k & row & Hk).
  apply qs_filter_lookup in Hk as [Hk Hp].
  apply qs_exclude_lookup in Hk as [Hk Hid].
  apply id_is_false in Hid.
  rewrite (Hfree k row Hk) in Hp; [done|].
  intros ->. by apply Hid.
Qed.

Section CloneLemmas.

Context {collab : Collaborators}.

(** [save] of an instance without key that it accepts: the row is
    written under the key. *)
Lemma Model_save_accepts (pk : UUID) (c : GitRepository) (w : World) :
  id c = None -> slug c <> "" ->
  save_accepts (table w) pk c ->
  let saved := set_state_adding false (set_id (Some pk) c) in
  Model_save pk c w
  = (inr saved, set_table (<[pk := to_row saved]> (table w)) w).
Proof.
  intros Hid Hslug (Hfits & Hadding & Hunique).
  unfold Model_save, bind, get. simpl.
  rewrite Hid. simpl. rewrite decide_False by done. rewrite Hfits. simpl.
  assert (state_adding c && bool_decide (is_Some (table w !! pk)) = false)
    as ->.
  { destruct (state_adding c); [|done]. simpl.
    apply bool_decide_eq_false. rewrite (Hadding eq_refl).
    by intros [? ?]. }
  rewrite qs_exists_unique.
  2:{ intros k row Hk Hne. apply bool_decide_eq_false.
      by apply (Hunique k row Hk). }
  rewrite qs_exists_unique.
  2:{ intros k row Hk Hne. apply bool_decide_eq_false.
      by apply (Hunique k row Hk). }
  reflexivity.
Qed.

(** [save] of an instance with a value that is too long for its column:
    the database refuses it and nothing is written. *)
Lemma Model_save_too_long (pk : UUID) (c : GitRepository) (w : World) :
  slug c <> "" -> fits_columns c = false ->
  Model_save pk c w
  = (inl (DataError "value too long for type character varying"), w).
Proof.
  intros Hslug Hfits. unfold Model_save, bind, get. simpl.
  rewrite decide_False by done. by rewrite Hfits.
Qed.

Lemma Model_delete_saved (pk : UUID) (c : GitRepository) (w : World) :
  id c = Some pk ->
  Model_delete c w = (inr tt, set_table (delete pk (table w)) w).
Proof. intros Hid. unfold Model_delete. by rewrite Hid. Qed.

(** Writing a row under a fresh key and deleting it gives the table
    back. *)
Lemma delete_saved_world (pk : UUID) (row : Row) (w : World) :
  table w !! pk = None ->
  set_table (delete pk (table (set_table (<[pk := row]> (table w)) w)))
    (set_table (<[pk := row]> (table w)) w)
  = w.
Proof.
  intros Hfresh. destruct w as [t q]. unfold set_table. simpl in *.
  by rewrite delete_insert_id.
Qed.

Lemma clone_candidate_fields u self b h :
  id (clone_candidate u self b h) = None
  /\ name (clone_candidate u self b h)
     = name self ++ " (" ++ uuid_str u ++ ")"
  /\ slug (clone_candidate u self b h) = slug self ++ "_" ++ uuid_str u
  /\ remote_url (clone_candidate u self b h) = remote_url self
  /\ provided_contents (clone_candidate u self b h) = provided_contents self.
Proof. unfold clone_candidate. by destruct b, h. Qed.

Lemma clone_candidate_slug_not_blank u self b h :
  slug (clone_candidate u self b h) <> "".
Proof.
  destruct (clone_candidate_fields u self b h) as (_ & _ & -> & _).
  apply append_String_not_empty.
Qed.

(** Fresh identifiers and values that fit are what [save] needs. *)
Lemma fresh_save_accepts db u pk self b h :
  fresh_for db u pk self ->
  fits_columns (clone_candidate u self b h) = true ->
  save_accepts db pk (clone_candidate u self b h).
Proof.
  intros (Hpk & Hname & Hslug) Hfits.
  destruct (clone_candidate_fields u self b h) as (_ & Hn & Hs & _).
  split; [done|]. split; [done|].
  intros k row Hk _. rewrite Hn, Hs.
  split; [by apply Hname in Hk|by apply Hslug in Hk].
Qed.

Lemma save_clone_candidate u pk self b h w :
  save_accepts (table w) pk (clone_candidate u self b h) ->
  Model_save pk (clone_candidate u self b h) w
  = (inr (cloned_record u pk self b h),
     set_table (<[pk := to_row (cloned_record u pk self b h)]> (table w)) w).
Proof.
  intros Haccepts.
  destruct (clone_candidate_fields u self b h) as (Hid & _).
  apply Model_save_accepts; try done.
  apply clone_candidate_slug_not_blank.
Qed.

(** The name or another value of the copy is too long for its column:
    [clone] ends with the refusal of the database and writes nothing. *)
Lemma clone_too_long u pk self b h w :
  fits_columns (clone_candidate u self b h) = false ->
  clone u pk self b h w
  = (inl (DataError "value too long for type character varying"), w).
Proof.
  intros Hfits.
  pose proof (Model_save_too_long pk _ w
                (clone_candidate_slug_not_blank u self b h) Hfits) as Hsave.
  unfold clone_candidate in Hsave. unfold clone.
  destruct b as [b|]; [destruct h as [h|]|destruct h as [h|]]; simpl;
    unfold bind at 1, ret at 1; by rewrite (bind_err _ _ _ _ _ Hsave).
Qed.

(** With a head and no branch, [clone] never returns: each of its three
    steps ends in an exception. *)
Lemma clone_head_without_branch_raises u pk self h w :
  exists e w', clone u pk self None (Some h) w = (inl e, w').
Proof.
  unfold clone, bind at 1, bind at 1.
  destruct (Model_save _ _ _) as [[e|saved] w1]; [by eauto|].
  unfold bind. destruct (Model_delete _ _) as [[e|[]] w2]; by eauto.
Qed.

(** With acceptable arguments, [clone] saves the candidate and goes on
    with the git helper. *)
Lemma clone_saved u pk self b h w :
  (b = None -> h = None) ->
  save_accepts (table w) pk (clone_candidate u self b h) ->
  let c := cloned_record u pk self b h in
  clone u pk self b h w
  = (do '(from_url, to_path, _) <-
       lift_result (get_repo_from_url_to_path_and_from_branch c);
     do '(_, _) <-
       try_except_reraise
         (run lift_check (GitRepo to_path from_url);
          lift_result
            (checkout to_path from_url (checkout_branch self b)
               (checkout_head self b h)))
         (Model_delete c);
     ret c)
      (set_table (<[pk := to_row c]> (table w)) w).
Proof.
  intros Hargs Hfresh c. unfold clone.
  pose proof (save_clone_candidate u pk self b h w Hfresh) as Hsave.
  unfold clone_candidate in Hsave.
  destruct b as [b|]; [destruct h as [h|]|rewrite (Hargs eq_refl)];
    simpl; unfold bind at 1, ret at 1;
    by rewrite (bind_ok _ _ _ _ _ Hsave).
Qed.

(** What a call of [clone] that returns has done. *)
Lemma clone_returns u pk self b h w c w' :
  fresh_for (table w) u pk self ->
  clone u pk self b h w = (inr c, w') ->
  c = cloned_record u pk self b h
  /\ w' = set_table (<[pk := to_row c]> (table w)) w.
Proof.
  intros Hfresh Hclone.
  destruct (fits_columns (clone_candidate u self b h)) eqn:Hfits.
  2:{ by rewrite clone_too_long in Hclone. }
  apply (fresh_save_accepts _ _ _ _ b h) in Hfresh; [|done].
  destruct (decide (b = None /\ h <> None)) as [[-> Hh]|Hargs].
  { destruct h as [h|]; [|done].
    destruct (clone_head_without_branch_raises u pk self h w)
      as (e & w1 & Hraise).
    congruence. }
  rewrite clone_saved in Hclone; [|by destruct b, h; naive_solver|done].
  unfold bind at 1 in Hclone. unfold lift_result at 1 in Hclone.
  destruct (get_repo_from_url_to_path_and_from_branch _)
    as [e|[[from_url to_path] fb]]; [done|].
  unfold ret at 1 in Hclone. unfold bind, try_except_reraise in Hclone.
  destruct (GitRepo to_path from_url) as [e|]; simpl in Hclone;
    [by destruct (is_Exception e)|].
  destruct (checkout _ _ _ _) as [e|[hd ch]]; simpl in Hclone;
    [by destruct (is_Exception e)|].
  unfold ret in Hclone. by injection Hclone as <- <-.
Qed.

End CloneLemmas.

(** ** Dispatch: the claim on [sync] *)

(** C8. [sync] puts exactly one task on the queue, the diff-only one when
    [dry_run] is set and the pull-and-refresh one otherwise, for this
    repository and user; it returns the handle of that task and leaves
    the table of repositories as it was. The kind of the task is a
    function of [dry_run] alone. *)
Theorem sync_enqueues_one_task
    (self : GitRepository) (user : User) (dry_run : bool) (w : World) :
  let job :=
    mkJob (if dry_run then DiffOriginAndLocal else PullAndRefreshData)
      (id self) user in
  sync self user dry_run w
  = (inr (mkJobResult (length (queue w)) job),
     mkWorld (table w) (queue w ++ [job])).
Proof. by destruct dry_run. Qed.

(** ** Cloning: the claims on [clone] *)

Section CloneTheorems.

Context {collab : Collaborators}.

(** The steps of [clone] after [save], when the URL and the path have
    been computed: an [Exception] of the git helper has the saved record
    deleted, any other [BaseException] leaves it. *)
Lemma clone_git_failure
    (generated_uuid pk : UUID) (self : GitRepository)
    (branch_arg head_arg : option string) (w : World)
    (from_url to_path from_branch : string) (e : exn) :
  let c := cloned_record generated_uuid pk self branch_arg head_arg in
  (branch_arg = None -> head_arg = None) ->
  save_accepts (table w) pk
    (clone_candidate generated_uuid self branch_arg head_arg) ->
  get_repo_from_url_to_path_and_from_branch c
  = inr (from_url, to_path, from_branch) ->
  GitRepo to_path from_url = Some e
  \/ (GitRepo to_path from_url = None
      /\ checkout to_path from_url (checkout_branch self branch_arg)
           (checkout_head self branch_arg head_arg) = inl e) ->
  clone generated_uuid pk self branch_arg head_arg w
  = (inl e,
     if is_Exception e then set_table (delete pk (table w)) w
     else set_table (<[pk := to_row c]> (table w)) w).
Proof.
  intros c Hargs Haccepts Hrepo Hfail.
  rewrite clone_saved by done. fold c.
  unfold bind at 1. rewrite Hrepo. simpl.
  erewrite bind_err; [reflexivity|].
  unfold try_except_reraise, bind.
  destruct Hfail as [->|[-> ->]]; simpl;
    destruct (is_Exception e); try done; simpl;
    by rewrite delete_insert_eq.
Qed.

(** C4, as the code has it. When the URL and the path of the clone have
    been computed and the git helper then raises an [Exception], in its
    constructor or in [checkout], the record that [clone] had saved under
    the new key is deleted and the same exception is raised again: the
    call ends with the table without a row under the new key, which is
    the table it started from when the key was unused. *)
Theorem clone_failed_checkout_deletes_record
    (generated_uuid pk : UUID) (self : GitRepository)
    (branch_arg head_arg : option string) (w : World)
    (from_url to_path from_branch : string) (e : exn) :
  let c := cloned_record generated_uuid pk self branch_arg head_arg in
  (branch_arg = None -> head_arg = None) ->
  save_accepts (table w) pk
    (clone_candidate generated_uuid self branch_arg head_arg) ->
  get_repo_from_url_to_path_and_from_branch c
  = inr (from_url, to_path, from_branch) ->
  is_Exception e = true ->
  GitRepo to_path from_url = Some e
  \/ (GitRepo to_path from_url = None
      /\ checkout to_path from_url (checkout_branch self branch_arg)
           (checkout_head self branch_arg head_arg) = inl e) ->
  Model_save pk (clone_candidate generated_uuid self branch_arg head_arg) w
  = (inr c, set_table (<[pk := to_row c]> (table w)) w)
  /\ clone generated_uuid pk self branch_arg head_arg w
     = (inl e, set_table (delete pk (table w)) w)
  /\ table (snd (clone generated_uuid pk self branch_arg head_arg w)) !! pk
     = None
  /\ (table w !! pk = None ->
      clone generated_uuid pk self branch_arg head_arg w = (inl e, w)).
Proof.
  intros c Hargs Haccepts Hrepo Hexc Hfail.
  pose proof (clone_git_failure generated_uuid pk self branch_arg head_arg w
                from_url to_path from_branch e Hargs Haccepts Hrepo Hfail)
    as Hclone.
  rewrite Hexc in Hclone.
  split; [by apply save_clone_candidate|].
  split; [exact Hclone|]. rewrite Hclone. simpl.
  split; [apply lookup_delete_eq|].
  intros Hpk. f_equal. rewrite delete_id by done. apply world_eta.
Qed.

(** C5, as the code has it. [clone] with a head and no branch, under
    fresh identifiers, ends with the table it started from. When the
    values of the copy fit their columns it fails with the
    invalid-argument error; when one does not, the [save] that comes
    before the error fails and [clone] ends with the database's
    [DataError]. *)
Theorem clone_head_without_branch_fails
    (generated_uuid pk : UUID) (self : GitRepository) (head : string)
    (w : World) :
  fresh_for (table w) generated_uuid pk self ->
  snd (clone generated_uuid pk self None (Some head) w) = w
  /\ (fits_columns (clone_candidate generated_uuid self None (Some head))
      = true ->
      clone generated_uuid pk self None (Some head) w
      = (inl InvalidArgumentError, w))
  /\ (fits_columns (clone_candidate generated_uuid self None (Some head))
      = false ->
      clone generated_uuid pk self None (Some head) w
      = (inl (DataError "value too long for type character varying"), w)).
Proof.
  intros Hfresh.
  assert (Hfits : fits_columns
                    (clone_candidate generated_uuid self None (Some head))
                  = true ->
                  clone generated_uuid pk self None (Some head) w
                  = (inl InvalidArgumentError, w)).
  { intros Hfits. unfold clone.
    pose proof (save_clone_candidate generated_uuid pk self None (Some head)
                  w (fresh_save_accepts _ _ _ _ _ _ Hfresh Hfits)) as Hsave.
    unfold clone_candidate in Hsave.
    erewrite bind_err; [reflexivity|].
    rewrite (bind_ok _ _ _ _ _ Hsave).
    rewrite (bind_ok _ _ _ tt w); [done|].
    rewrite (Model_delete_saved pk) by done.
    destruct Hfresh as (Hpk & _). by rewrite delete_saved_world. }
  split; [|split; [exact Hfits|apply clone_too_long]].
  destruct (fits_columns _) eqn:Hf.
  - by rewrite Hfits.
  - by rewrite clone_too_long.
Qed.

(** C6, as the code has it. [clone] with neither branch nor head, when
    the values of the copy fit their columns and the git helper succeeds,
    returns a new record with the branch and the [current_head] of the
    source, whose name and slug are the source's extended by the
    generated identifier and so differ from them; the helper is asked for
    that branch and that commit, and the record is in the table under the
    new key. *)
Theorem clone_defaults_to_source
    (generated_uuid pk : UUID) (self : GitRepository) (w : World)
    (from_url to_path from_branch head : string) (changed : bool) :
  fresh_for (table w) generated_uuid pk self ->
  fits_columns (clone_candidate generated_uuid self None None) = true ->
  get_repo_from_url_to_path_and_from_branch
    (cloned_record generated_uuid pk self None None)
  = inr (from_url, to_path, from_branch) ->
  GitRepo to_path from_url = None ->
  checkout to_path from_url (branch self) (Some (current_head self))
  = inr (head, changed) ->
  exists c w',
    clone generated_uuid pk self None None w = (inr c, w')
    /\ branch c = branch self
    /\ current_head c = current_head self
    /\ name c = name self ++ " (" ++ uuid_str generated_uuid ++ ")"
    /\ slug c = slug self ++ "_" ++ uuid_str generated_uuid
    /\ name c <> name self
    /\ slug c <> slug self
    /\ id c = Some pk
    /\ table w' !! pk = Some (to_row c).
Proof.
  intros Hfresh Hfits Hrepo Hgit Hcheckout.
  exists (cloned_record generated_uuid pk self None None). eexists.
  split.
  - rewrite clone_saved by (done || by apply fresh_save_accepts).
    unfold bind at 1. rewrite Hrepo. simpl.
    unfold bind, try_except_reraise. rewrite Hgit. simpl.
    rewrite Hcheckout. reflexivity.
  - repeat split; try reflexivity.
    + apply append_not_self. discriminate.
    + apply append_not_self. discriminate.
    + simpl. apply lookup_insert_eq.
Qed.

(** C9. A record that a successful [clone] returns has the remote URL
    and the contents of its source and is in the table under a new key,
    next to the source; no validation was run on it, and the overlap
    check of [clean] rejects it. When the source provides contents the
    table then holds two records with the same remote URL and shared
    contents: the no-overlap invariant is broken. *)
Theorem clone_breaks_no_overlap
    (generated_uuid pk k : UUID) (self : GitRepository) (row : Row)
    (branch_arg head_arg : option string) (w w' : World)
    (c : GitRepository) :
  id self = Some k ->
  table w !! k = Some row ->
  row_remote_url row = remote_url self ->
  row_provided_contents row = provided_contents self ->
  provided_contents self <> [] ->
  fresh_for (table w) generated_uuid pk self ->
  clone generated_uuid pk self branch_arg head_arg w = (inr c, w') ->
  remote_url c = remote_url self
  /\ provided_contents c = provided_contents self
  /\ id c = Some pk
  /\ pk <> k
  /\ table w' !! pk = Some (to_row c)
  /\ table w' !! k = Some row
  /\ clean_no_overlap (table w') c
     = (inl (ContentOverlapError (remote_url c)), c)
  /\ ~ no_overlap (table w').
Proof.
  intros Hid Hk Hurl Hpc Hne Hfresh Hclone.
  apply clone_returns in Hclone as [-> ->]; [|done].
  set (c := cloned_record generated_uuid pk self branch_arg head_arg).
  destruct (clone_candidate_fields generated_uuid self branch_arg head_arg)
    as (_ & _ & _ & Hcurl & Hcpc).
  assert (Hpk : pk <> k).
  { intros ->. destruct Hfresh as (Hnone & _). congruence. }
  assert (Hc : table (set_table (<[pk := to_row c]> (table w)) w) !! pk
               = Some (to_row c)) by apply lookup_insert_eq.
  assert (Hsrc : table (set_table (<[pk := to_row c]> (table w)) w) !! k
                 = Some row) by (simpl; by rewrite lookup_insert_ne).
  assert (Hshare : shares_content (provided_contents self)
                     (provided_contents self)).
  { destruct (provided_contents self) as [|item items]; [done|].
    exists item. split; apply elem_of_cons; by left. }
  repeat split; try done.
  - apply clean_no_overlap_raises. exists k, row.
    split; [done|]. split; [simpl; congruence|].
    split; [by rewrite Hurl|]. change (provided_contents c) with
      (provided_contents (clone_candidate generated_uuid self branch_arg
                            head_arg)).
    by rewrite Hcpc, Hpc.
  - intros Hinv. apply (Hinv pk k (to_row c) row Hpk Hc Hsrc).
    + simpl. change (remote_url _) with
        (remote_url (clone_candidate generated_uuid self branch_arg head_arg)).
      by rewrite Hcurl, Hurl.
    + simpl. change (provided_contents _) with
        (provided_contents (clone_candidate generated_uuid self branch_arg
                              head_arg)).
      by rewrite Hcpc, Hpc.
Qed.

(** The URL and path of the clone are computed after [save] and outside
    the [try] block: an exception raised there ends the call with the
    saved record still in the table. *)
Lemma clone_failed_url_keeps_record
    (generated_uuid pk : UUID) (self : GitRepository)
    (branch_arg head_arg : option string) (w : World) (e : exn) :
  let c := cloned_record generated_uuid pk self branch_arg head_arg in
  (branch_arg = None -> head_arg = None) ->
  save_accepts (table w) pk
    (clone_candidate generated_uuid self branch_arg head_arg) ->
  get_repo_from_url_to_path_and_from_branch c = inl e ->
  clone generated_uuid pk self branch_arg head_arg w
  = (inl e, set_table (<[pk := to_row c]> (table w)) w).
Proof.
  intros c Hargs Haccepts Hrepo.
  rewrite clone_saved by done. fold c.
  unfold bind at 1. by rewrite Hrepo.
Qed.

(** The [current_head] of a record that [clone] returns is the head
    argument when a branch and a head are given, and the source's
    otherwise: what [checkout] returned plays no part. *)
Lemma clone_current_head
    (generated_uuid pk : UUID) (self : GitRepository)
    (branch_arg head_arg : option string) (w w' : World)
    (c : GitRepository) :
  fresh_for (table w) generated_uuid pk self ->
  clone generated_uuid pk self branch_arg head_arg w = (inr c, w') ->
  current_head c
  = match branch_arg, head_arg with
    | Some _, Some h => h
    | _, _ => current_head self
    end.
Proof.
  intros Hfresh Hclone.
  apply clone_returns in Hclone as [-> _]; [|done].
  by destruct branch_arg, head_arg.
Qed.

End CloneTheorems.

(** *** The claims on [clone] at concrete inputs *)

Lemma example_fresh (self : GitRepository) :
  bool_decide
    (fresh_for example_db example_uuid 9%N self) = true ->
  fresh_for example_db example_uuid 9%N self.
Proof. apply bool_decide_eq_true_1. Defined.

Lemma example_accepts (self : GitRepository) (b h : option string) :
  bool_decide (fresh_for example_db example_uuid 9%N self) = true ->
  fits_columns (collab := example_collaborators)
    (clone_candidate example_uuid self b h) = true ->
  save_accepts (collab := example_collaborators) example_db 9%N
    (clone_candidate example_uuid self b h).
Proof.
  intros Hfresh Hfits. apply fresh_save_accepts; [|exact Hfits].
  apply example_fresh. exact Hfresh.
Defined.

Lemma clone_failed_checkout_deletes_record_witness :
  clone (collab := example_collaborators) example_uuid 9%N
    (from_db 2%N example_gone_row) None None example_world
  = (inl (OtherError "repository not found"), example_world)
  /\ table
       (snd (clone (collab := example_collaborators) example_uuid 9%N
               (from_db 2%N example_gone_row) None None example_world))
     !! 9%N = None.
Proof.
  destruct (clone_failed_checkout_deletes_record
              (collab := example_collaborators) example_uuid 9%N
              (from_db 2%N example_gone_row) None None example_world
              "https://example.com/gone.git"
              ("/opt/nautobot/git/gone_" ++ uuid_str example_uuid)
              "main" (OtherError "repository not found"))
    as (_ & _ & Hgone & Hclone).
  - done.
  - apply example_accepts; vm_compute; reflexivity.
  - vm_compute. reflexivity.
  - reflexivity.
  - right. split; reflexivity.
  - split; [apply Hclone; reflexivity|exact Hgone].
Defined.

(** C4, as the claim states it, fails: when [checkout] is interrupted
    from the keyboard, the [except Exception] clause does not run, and
    the call ends with the saved record still in the table. *)
Lemma clone_interrupted_checkout_counterexample :
  let c := cloned_record example_uuid 9%N (from_db 1%N example_row)
             None None in
  checkout (Collaborators := interrupted_collaborators)
    ("/opt/nautobot/git/" ++ slug c) (remote_url c) "main" (Some "aaa")
  = inl (BaseExceptionOnly "KeyboardInterrupt")
  /\ table example_world !! 9%N = None
  /\ exists w',
       clone (collab := interrupted_collaborators) example_uuid 9%N
         (from_db 1%N example_row) None None example_world
       = (inl (BaseExceptionOnly "KeyboardInterrupt"), w')
       /\ table w' !! 9%N = Some (to_row c).
Proof.
  intros c. split; [reflexivity|]. split; [reflexivity|].
  eexists. split.
  - apply (clone_git_failure (collab := interrupted_collaborators)
             example_uuid 9%N (from_db 1%N example_row) None None
             example_world "https://example.com/r.git"
             ("/opt/nautobot/git/configs_" ++ uuid_str example_uuid)
             "main" (BaseExceptionOnly "KeyboardInterrupt")).
    + done.
    + apply fresh_save_accepts; [|vm_compute; reflexivity].
      apply example_fresh. vm_compute. reflexivity.
    + vm_compute. reflexivity.
    + right. split; reflexivity.
  - apply lookup_insert_eq.
Qed.

Lemma clone_head_without_branch_fails_witness :
  clone (collab := example_collaborators) example_uuid 9%N
    (from_db 1%N example_row) None (Some "abc123") example_world
  = (inl InvalidArgumentError, example_world).
Proof.
  destruct (clone_head_without_branch_fails (collab := example_collaborators)
              example_uuid 9%N (from_db 1%N example_row) "abc123"
              example_world)
    as (_ & Hfits & _).
  - apply example_fresh. vm_compute. reflexivity.
  - apply Hfits. vm_compute. reflexivity.
Defined.

(** C5, as the claim states it, fails: the record has a name of 230
    characters, which fits its column; the name of the copy has 269 and
    does not, so the [save] that precedes the invalid-argument error
    fails and [clone] ends with the database's [DataError]. *)
Lemma clone_head_without_branch_counterexample :
  fits_columns (collab := example_collaborators)
    (from_db 3%N example_long_row) = true
  /\ table example_long_world !! 3%N = Some example_long_row
  /\ clone (collab := example_collaborators) example_uuid 9%N
       (from_db 3%N example_long_row) None (Some "abc123") example_long_world
     = (inl (DataError "value too long for type character varying"),
        example_long_world)
  /\ DataError "value too long for type character varying"
     <> InvalidArgumentError.
Proof.
  split; [vm_compute; reflexivity|]. split; [reflexivity|].
  split; [|discriminate].
  apply clone_too_long. vm_compute. reflexivity.
Qed.

Lemma clone_defaults_to_source_witness :
  exists c w',
    clone (collab := example_collaborators) example_uuid 9%N
      (from_db 1%N example_row) None None example_world = (inr c, w')
    /\ branch c = "main"
    /\ current_head c = "aaa"
    /\ name c = "configs (12345678-1234-5678-1234-567812345670)"
    /\ slug c = "configs_12345678-1234-5678-1234-567812345670"
    /\ table w' !! 9%N = Some (to_row c).
Proof.
  destruct (clone_defaults_to_source (collab := example_collaborators)
              example_uuid 9%N (from_db 1%N example_row) example_world
              "https://example.com/r.git"
              ("/opt/nautobot/git/configs_" ++ uuid_str example_uuid)
              "main" "bbb" true)
    as (c & w' & Hclone & Hbr & Hhead & Hname & Hslug & _ & _ & _ & Hrow).
  - apply example_fresh. vm_compute. reflexivity.
  - vm_compute. reflexivity.
  - vm_compute. reflexivity.
  - reflexivity.
  - reflexivity.
  - exists c, w'. split; [exact Hclone|]. split; [exact Hbr|].
    split; [exact Hhead|]. split; [exact Hname|]. split; [exact Hslug|].
    exact Hrow.
Defined.

(** C6, as the claim states it, fails: for the record with a name of 230
    characters, [clone] with neither branch nor head produces no record;
    the name of the copy does not fit its column, [save] fails, and the
    table is as it was. *)
Lemma clone_defaults_counterexample :
  fits_columns (collab := example_collaborators)
    (from_db 3%N example_long_row) = true
  /\ table example_long_world !! 3%N = Some example_long_row
  /\ String.length
       (name (clone_candidate example_uuid (from_db 3%N example_long_row)
                None None)) = 269
  /\ clone (collab := example_collaborators) example_uuid 9%N
       (from_db 3%N example_long_row) None None example_long_world
     = (inl (DataError "value too long for type character varying"),
        example_long_world).
Proof.
  split; [vm_compute; reflexivity|]. split; [reflexivity|].
  split; [vm_compute; reflexivity|].
  apply clone_too_long. vm_compute. reflexivity.
Qed.

(** C7, at a concrete input. The source has branch [main] and
    [current_head] [aaa]; [clone] is asked for branch [dev]; the git
    helper checks out commit [bbb]. The call returns a record that is in
    the table, with branch [dev] and [current_head] still [aaa]: the
    commit of the checkout is not stored. *)
Lemma clone_keeps_source_current_head :
  let c := cloned_record example_uuid 9%N (from_db 1%N example_row)
             (Some "dev") None in
  let w' := set_table (<[9%N := to_row c]> example_db) example_world in
  clone (collab := example_collaborators) example_uuid 9%N
    (from_db 1%N example_row) (Some "dev") None example_world = (inr c, w')
  /\ checkout (Collaborators := example_collaborators)
       ("/opt/nautobot/git/" ++ slug c) (remote_url c) "dev" None
     = inr ("bbb", true)
  /\ branch c = "dev"
  /\ current_head c = "aaa"
  /\ table w' !! 9%N = Some (to_row c).
Proof.
  intros c w'. split; [|split; [|split; [|split]]].
  - rewrite clone_saved
      by (done || (apply example_accepts; vm_compute; reflexivity)).
    reflexivity.
  - reflexivity.
  - reflexivity.
  - reflexivity.
  - apply lookup_insert_eq.
Qed.

Lemma clone_breaks_no_overlap_witness :
  exists c w',
    clone (collab := example_collaborators) example_uuid 9%N
      (from_db 1%N example_row) None None example_world = (inr c, w')
    /\ no_overlap example_db
    /\ ~ no_overlap (table w').
Proof.
  set (c := cloned_record example_uuid 9%N (from_db 1%N example_row)
              None None).
  set (w' := set_table (<[9%N := to_row c]> example_db) example_world).
  assert (Hclone : clone (collab := example_collaborators) example_uuid 9%N
            (from_db 1%N example_row) None None example_world = (inr c, w')).
  { vm_compute. reflexivity. }
  exists c, w'. split; [exact Hclone|]. split; [exact example_db_no_overlap|].
  destruct (clone_breaks_no_overlap (collab := example_collaborators)
              example_uuid 9%N 1%N (from_db 1%N example_row) example_row
              None None example_world w' c)
    as (_ & _ & _ & _ & _ & _ & _ & Hbroken).
  - reflexivity.
  - reflexivity.
  - reflexivity.
  - reflexivity.
  - discriminate.
  - apply example_fresh. vm_compute. reflexivity.
  - exact Hclone.
  - exact Hbroken.
Defined.

(** ** Further properties of [clean] *)

Lemma same_but_slug_head_refl self : same_but_slug_head self self.
Proof. repeat split; auto. Qed.

Lemma same_but_slug_head_trans s1 s2 s3 :
  same_but_slug_head s1 s2 -> same_but_slug_head s2 s3 ->
  same_but_slug_head s1 s3.
Proof.
  intros (H1 & H2 & H3 & H4 & H5 & H6 & H7 & H8 & H9 & H10)
         (G1 & G2 & G3 & G4 & G5 & G6 & G7 & G8 & G9 & G10).
  repeat split; try congruence.
  - intros Hne. rewrite G9; [by apply H9|]. by rewrite H9.
  - destruct G10 as [G10|G10]; [|by right].
    rewrite G10. exact H10.
Qed.

(** A computation keeps the frame when each of its two parts does. *)
Lemma bind_frame {A B} (m : M GitRepository A) (k : A -> M GitRepository B) :
  (forall s, same_but_slug_head s (snd (m s))) ->
  (forall a s, same_but_slug_head s (snd (k a s))) ->
  forall s, same_but_slug_head s (snd (bind m k s)).
Proof.
  intros Hm Hk s. unfold bind. specialize (Hm s).
  destruct (m s) as [[e|a] s']; [exact Hm|].
  eapply same_but_slug_head_trans; [exact Hm|apply Hk].
Qed.

Section CleanFurther.

Context {collab : Collaborators}.

Lemma clean_super_frame s : same_but_slug_head s (snd (clean_super s)).
Proof.
  unfold clean_super, bind, get, lift_check. simpl.
  destruct (super_clean s); apply same_but_slug_head_refl.
Qed.

Lemma clean_autogenerate_slug_frame db s :
  same_but_slug_head s (snd (clean_autogenerate_slug db s)).
Proof.
  rewrite clean_autogenerate_slug_eq. simpl. unfold slug_filled.
  case_decide; [|apply same_but_slug_head_refl].
  repeat split; auto. done.
Qed.

Lemma clean_slug_unchanged_frame s :
  same_but_slug_head s (snd (clean_slug_unchanged s)).
Proof.
  unfold clean_slug_unchanged, bind, get. simpl.
  destruct (_ && _); apply same_but_slug_head_refl.
Qed.

Lemma clean_slug_on_create_frame s :
  same_but_slug_head s (snd (clean_slug_on_create s)).
Proof.
  unfold clean_slug_on_create, bind, get, lift_check. simpl.
  destruct (negb _); [|apply same_but_slug_head_refl].
  destruct (check_if_key_is_graphql_safe _ _ _);
    [apply same_but_slug_head_refl|].
  simpl. destruct (find_spec _); apply same_but_slug_head_refl.
Qed.

Lemma clean_no_overlap_frame db s :
  same_but_slug_head s (snd (clean_no_overlap db s)).
Proof.
  destruct (overlapping_other_dec db s) as [Hov|Hov].
  - rewrite clean_no_overlap_raises by done. apply same_but_slug_head_refl.
  - rewrite clean_no_overlap_passes by done. apply same_but_slug_head_refl.
Qed.

Lemma clean_invalidate_head_frame db s :
  same_but_slug_head s (snd (clean_invalidate_head db s)).
Proof.
  unfold clean_invalidate_head, bind, get, objects_get.
  destruct (present_in_database s); [|apply same_but_slug_head_refl].
  destruct (id s) as [k|]; [|apply same_but_slug_head_refl].
  destruct (db !! k) as [row|]; [|apply same_but_slug_head_refl].
  simpl. destruct (negb _ || negb _); [|apply same_but_slug_head_refl].
  repeat split; auto.
Qed.

(** X1. Whatever its outcome, [clean] leaves the key, the name, the
    remote URL, the branch, the secrets group, the contents, the adding
    flag and the initial slug of the instance as they are; it changes a
    slug only when it is blank, and [current_head] only by emptying it. *)
Theorem clean_changes_only_slug_and_head (db : Table) (self : GitRepository) :
  same_but_slug_head self (snd (clean db self)).
Proof.
  unfold clean.
  apply bind_frame; [apply clean_super_frame|intros _].
  apply bind_frame; [apply clean_autogenerate_slug_frame|intros _].
  apply bind_frame; [apply clean_slug_unchanged_frame|intros _].
  apply bind_frame; [apply clean_slug_on_create_frame|intros _].
  apply bind_frame; [apply clean_no_overlap_frame|intros _].
  apply clean_invalidate_head_frame.
Qed.

(** X2. On create, when the checks pass, [clean] succeeds whatever the
    table holds under the instance's key, and its only effect is to fill
    a blank slug: [current_head] is not emptied. *)
Theorem clean_on_create (db : Table) (self : GitRepository) :
  present_in_database self = false ->
  slug_checks_pass db self ->
  ~ overlapping_other db self ->
  clean db self = (inr tt, slug_filled db self)
  /\ current_head (slug_filled db self) = current_head self.
Proof.
  intros Hp Hchecks Hov.
  destruct (slug_filled_fields db self) as (_ & _ & _ & Hhead & _ & Hp' & _).
  split; [|exact Hhead].
  rewrite (clean_after_slug_checks db self Hchecks).
  rewrite (bind_ok _ _ _ tt (slug_filled db self)).
  2:{ apply clean_no_overlap_passes. by rewrite slug_filled_overlapping. }
  unfold clean_invalidate_head, bind, get. by rewrite Hp', Hp.
Qed.

(** X3. On update, when the checks pass but the table has no row under
    the instance's key (or the instance has no key), [clean] ends with
    [DoesNotExist], raised by the lookup of the persisted record. *)
Theorem clean_missing_row (db : Table) (self : GitRepository) :
  present_in_database self = true ->
  slug_checks_pass db self ->
  ~ overlapping_other db self ->
  (forall k, id self = Some k -> db !! k = None) ->
  clean db self = (inl DoesNotExist, slug_filled db self).
Proof.
  intros Hp Hchecks Hov Hmissing.
  destruct (slug_filled_fields db self) as (Hid & _ & _ & _ & _ & Hp' & _).
  rewrite (clean_after_slug_checks db self Hchecks).
  rewrite (bind_ok _ _ _ tt (slug_filled db self)).
  2:{ apply clean_no_overlap_passes. by rewrite slug_filled_overlapping. }
  unfold clean_invalidate_head, bind, get, objects_get.
  rewrite Hp', Hp, Hid.
  destruct (id self) as [k|]; [|done].
  by rewrite (Hmissing k eq_refl).
Qed.

(** X4. Validating a record as it was loaded, in a table that satisfies
    the no-overlap invariant, succeeds and changes nothing, when the
    inherited validation passes and the stored slug is not blank. *)
Theorem clean_loaded_record_unchanged (db : Table) (k : UUID) (row : Row) :
  no_overlap db ->
  db !! k = Some row ->
  row_slug row <> "" ->
  super_clean (from_db k row) = None ->
  clean db (from_db k row) = (inr tt, from_db k row).
Proof.
  intros Hinv Hk Hslug Hsuper.
  assert (Heff : effective_slug db (from_db k row) = row_slug row).
  { unfold effective_slug. simpl. by rewrite decide_False. }
  assert (Hfilled : slug_filled db (from_db k row) = from_db k row).
  { unfold slug_filled. simpl. by rewrite decide_False. }
  assert (Hov : ~ overlapping_other db (from_db k row)).
  { intros (k' & row' & Hk' & Hne & Hurl & Hshare). simpl in *.
    apply (Hinv k k' row row'); try done; congruence. }
  assert (Hchecks : slug_checks_pass db (from_db k row)).
  { split; [done|]. split; [by rewrite Heff|]. discriminate. }
  rewrite (clean_after_slug_checks db _ Hchecks), Hfilled.
  rewrite (bind_ok _ _ _ tt (from_db k row))
    by by apply clean_no_overlap_passes.
  rewrite (clean_invalidate_head_present db _ k row) by done.
  simpl. by rewrite !bool_decide_eq_true_2.
Qed.

(** X5. On create, when the inherited validation passes, a slug that
    fails the GraphQL-safety check makes [clean] raise the exception of
    that check, and a slug that passes it but names an installed module
    makes [clean] raise the reserved-name error; both whatever the table
    holds. *)
Theorem clean_create_slug_errors (db : Table) (self : GitRepository) :
  present_in_database self = false ->
  super_clean self = None ->
  (forall e,
     check_if_key_is_graphql_safe "GitRepository" (effective_slug db self)
       "slug" = Some e ->
     clean db self = (inl e, slug_filled db self))
  /\ (forall m,
       check_if_key_is_graphql_safe "GitRepository" (effective_slug db self)
         "slug" = None ->
       find_spec (effective_slug db self) = Some m ->
       clean db self
       = (inl (ReservedNameError (effective_slug db self)),
          slug_filled db self)).
Proof.
  intros Hp Hsuper.
  destruct (slug_filled_fields db self) as (_ & _ & _ & _ & _ & Hp' & _).
  assert (Hstart : forall r,
    clean_slug_on_create (slug_filled db self) = (inl r, slug_filled db self) ->
    clean db self = (inl r, slug_filled db self)).
  { intros r Hr. unfold clean.
    rewrite (bind_ok _ _ _ _ _ (clean_super_ok _ Hsuper)).
    rewrite (bind_ok _ _ _ _ _ (clean_autogenerate_slug_eq db self)).
    rewrite (bind_ok _ _ _ tt (slug_filled db self)).
    2:{ apply clean_slug_unchanged_ok. rewrite Hp', Hp. discriminate. }
    by erewrite bind_err. }
  split.
  - intros e He. apply Hstart.
    unfold clean_slug_on_create, bind, get, lift_check.
    by rewrite Hp', Hp, slug_filled_slug, He.
  - intros m Hsafe Hm. apply Hstart.
    unfold clean_slug_on_create, bind, get, lift_check.
    by rewrite Hp', Hp, slug_filled_slug, Hsafe, Hm.
Qed.

End CleanFurther.

(** *** The further properties of [clean] at concrete inputs *)

Lemma clean_on_create_witness :
  clean (collab := example_collaborators) example_db
    (new_instance (Some 7%N) example_unsaved_row)
  = (inr tt, new_instance (Some 7%N) example_unsaved_row).
Proof.
  destruct (clean_on_create (collab := example_collaborators) example_db
              (new_instance (Some 7%N) example_unsaved_row))
    as [Hclean _].
  - reflexivity.
  - split; [reflexivity|]. split; [discriminate|].
    intros _. split; reflexivity.
  - intros Hov. apply duplicate_repos_exists in Hov; [|discriminate].
    vm_compute in Hov. discriminate Hov.
  - exact Hclean.
Defined.

Lemma clean_missing_row_witness :
  clean (collab := example_collaborators) example_db
    (from_db 7%N example_unsaved_row)
  = (inl DoesNotExist, from_db 7%N example_unsaved_row).
Proof.
  apply (clean_missing_row (collab := example_collaborators) example_db
           (from_db 7%N example_unsaved_row)).
  - reflexivity.
  - apply example_checks_pass_update; reflexivity.
  - intros Hov. apply duplicate_repos_exists in Hov; [|discriminate].
    vm_compute in Hov. discriminate Hov.
  - intros k [= <-]. reflexivity.
Defined.

Lemma clean_loaded_record_unchanged_witness :
  clean (collab := example_collaborators) example_db
    (from_db 1%N example_row)
  = (inr tt, from_db 1%N example_row).
Proof.
  apply (clean_loaded_record_unchanged (collab := example_collaborators)).
  - exact example_db_no_overlap.
  - reflexivity.
  - discriminate.
  - reflexivity.
Defined.

Lemma clean_create_slug_errors_witness :
  clean (collab := example_collaborators) example_db
    (new_instance (Some 7%N)
       (mkRow "os" "os" "https://example.com/os.git" "main" "" None []))
  = (inl (ReservedNameError "os"),
     new_instance (Some 7%N)
       (mkRow "os" "os" "https://example.com/os.git" "main" "" None [])).
Proof.
  destruct (clean_create_slug_errors (collab := example_collaborators)
              example_db
              (new_instance (Some 7%N)
                 (mkRow "os" "os" "https://example.com/os.git" "main" ""
                    None [])))
    as [_ Hreserved].
  - reflexivity.
  - reflexivity.
  - apply (Hreserved "os.py"); reflexivity.
Defined.

(** ** Further properties of [clone] *)

Lemma same_but_row_refl pk w : same_but_row pk w w.
Proof. by split. Qed.

Lemma same_but_row_trans pk w1 w2 w3 :
  same_but_row pk w1 w2 -> same_but_row pk w2 w3 -> same_but_row pk w1 w3.
Proof. intros [H1 H2] [G1 G2]. split; congruence. Qed.

Lemma same_but_row_insert pk row w :
  same_but_row pk w (set_table (<[pk := row]> (table w)) w).
Proof. split; [done|]. simpl. apply delete_insert_eq. Qed.

Lemma same_but_row_delete pk w :
  same_but_row pk w (set_table (delete pk (table w)) w).
Proof. split; [done|]. simpl. apply delete_delete_eq. Qed.

(** A computation keeps the frame when its first part does and its
    second part does for the values the first part can return. *)
Lemma bind_same_but_row {A B} pk (P : A -> Prop)
    (m : M World A) (k : A -> M World B) w :
  same_but_row pk w (snd (m w)) ->
  (forall a, fst (m w) = inr a -> P a) ->
  (forall a w1, P a -> same_but_row pk w1 (snd (k a w1))) ->
  same_but_row pk w (snd (bind m k w)).
Proof.
  intros Hm HP Hk. unfold bind.
  destruct (m w) as [[e|a] w1]; [exact Hm|].
  eapply same_but_row_trans; [exact Hm|]. apply Hk. by apply HP.
Qed.

Section CloneFurther.

Context {collab : Collaborators}.

Lemma Model_save_frame pk c w :
  id c = None ->
  same_but_row pk w (snd (Model_save pk c w))
  /\ forall saved, fst (Model_save pk c w) = inr saved -> id saved = Some pk.
Proof.
  intros Hid. unfold Model_save, bind, get, put, ret, raise. simpl.
  rewrite Hid. simpl.
  destruct (negb (fits_columns _)); [split; [apply same_but_row_refl|done]|].
  destruct (_ && _); [split; [apply same_but_row_refl|done]|].
  destruct (qs_exists _); [split; [apply same_but_row_refl|done]|].
  destruct (qs_exists _); [split; [apply same_but_row_refl|done]|].
  simpl. split; [apply same_but_row_insert|].
  intros saved [= <-]. by case_decide.
Qed.

Lemma Model_delete_frame pk c w :
  id c = Some pk -> same_but_row pk w (snd (Model_delete c w)).
Proof.
  intros Hid. rewrite (Model_delete_saved pk) by done.
  apply same_but_row_delete.
Qed.

(** X6. Whatever its arguments and its outcome, [clone] leaves the job
    queue and every row of the table other than the one under the new
    key as they are: the source record is never written. *)
Theorem clone_touches_only_new_row
    (generated_uuid pk : UUID) (self : GitRepository)
    (branch_arg head_arg : option string) (w : World) :
  same_but_row pk w
    (snd (clone generated_uuid pk self branch_arg head_arg w)).
Proof.
  unfold clone.
  apply (bind_same_but_row pk
           (fun x => id (fst (fst x)) = None)).
  - destruct branch_arg as [b|]; [apply same_but_row_refl|].
    destruct head_arg as [h|]; [|apply same_but_row_refl].
    apply (bind_same_but_row pk (fun saved => id saved = Some pk)).
    + by apply Model_save_frame.
    + by apply Model_save_frame.
    + intros saved w1 Hsaved.
      apply (bind_same_but_row pk (fun _ => True)); [|done|].
      * by apply Model_delete_frame.
      * intros _ w2 _. apply same_but_row_refl.
  - destruct branch_arg as [b|]; [destruct head_arg as [h|]|];
      try (intros a [= <-]; reflexivity).
    destruct head_arg as [h|]; [|intros a [= <-]; reflexivity].
    intros a Ha. exfalso. unfold bind in Ha.
    destruct (Model_save _ _ _) as [[e|saved] w1]; [done|].
    by destruct (Model_delete _ _) as [[e|[]] w2].
  - intros [[c b] h] w1 Hc. simpl in Hc.
    apply (bind_same_but_row pk (fun saved => id saved = Some pk)).
    + by apply Model_save_frame.
    + by apply Model_save_frame.
    + intros saved w2 Hsaved.
      apply (bind_same_but_row pk (fun _ => True)); [|done|].
      * unfold lift_result. destruct (get_repo_from_url_to_path_and_from_branch _);
          apply same_but_row_refl.
      * intros [[from_url to_path] fb] w3 _.
        apply (bind_same_but_row pk (fun _ => True)); [|done|].
        -- unfold try_except_reraise, bind, lift_check, lift_result.
           destruct (GitRepo to_path from_url) as [e|]; simpl.
           { destruct (is_Exception e); [|apply same_but_row_refl].
             rewrite (Model_delete_saved pk) by done. simpl.
             apply same_but_row_delete. }
           destruct (checkout _ _ _ _) as [e|[hd ch]]; simpl.
           { destruct (is_Exception e); [|apply same_but_row_refl].
             rewrite (Model_delete_saved pk) by done. simpl.
             apply same_but_row_delete. }
           apply same_but_row_refl.
        -- intros [hd ch] w4 _. apply same_but_row_refl.
Qed.

(** X7. A [clone] that returns has added exactly one row, the returned
    record's, under the new key: the table is the old one with that row
    and has one row more. The record is no longer being added, and it
    has the secrets group of its source. *)
Theorem clone_adds_one_row
    (generated_uuid pk : UUID) (self : GitRepository)
    (branch_arg head_arg : option string) (w w' : World)
    (c : GitRepository) :
  fresh_for (table w) generated_uuid pk self ->
  clone generated_uuid pk self branch_arg head_arg w = (inr c, w') ->
  table w' = <[pk := to_row c]> (table w)
  /\ dom (table w') = {[pk]} ∪ dom (table w)
  /\ size (table w') = S (size (table w))
  /\ present_in_database c = true
  /\ secrets_group c = secrets_group self.
Proof.
  intros Hfresh Hclone.
  apply clone_returns in Hclone as [-> ->]; [|done].
  destruct Hfresh as (Hpk & _). simpl.
  split; [done|]. split; [apply dom_insert_L|].
  split; [by apply map_size_insert_None|].
  split; [done|]. by destruct branch_arg, head_arg.
Qed.

(** X8. [clone] with a branch and a head, when the values of the copy
    fit their columns and the git helper succeeds for that branch and
    that commit, returns a record on that branch whose [current_head] is
    that head, saved under the new key. *)
Theorem clone_pinned
    (generated_uuid pk : UUID) (self : GitRepository) (b h : string)
    (w : World) (from_url to_path from_branch head : string)
    (changed : bool) :
  fresh_for (table w) generated_uuid pk self ->
  fits_columns (clone_candidate generated_uuid self (Some b) (Some h))
  = true ->
  get_repo_from_url_to_path_and_from_branch
    (cloned_record generated_uuid pk self (Some b) (Some h))
  = inr (from_url, to_path, from_branch) ->
  GitRepo to_path from_url = None ->
  checkout to_path from_url b (Some h) = inr (head, changed) ->
  exists c w',
    clone generated_uuid pk self (Some b) (Some h) w = (inr c, w')
    /\ branch c = b
    /\ current_head c = h
    /\ remote_url c = remote_url self
    /\ table w' !! pk = Some (to_row c).
Proof.
  intros Hfresh Hfits Hrepo Hgit Hcheckout.
  exists (cloned_record generated_uuid pk self (Some b) (Some h)). eexists.
  split.
  - rewrite clone_saved by (done || by apply fresh_save_accepts).
    unfold bind at 1. rewrite Hrepo. simpl.
    unfold bind, try_except_reraise. rewrite Hgit. simpl.
    rewrite Hcheckout. reflexivity.
  - repeat split. simpl. apply lookup_insert_eq.
Qed.

(** X9. The record that [clone] returns keeps the initial slug of its
    source while its slug is the extended one. When the source has the
    slug it was loaded with, validating the returned record fails with
    the immutable-slug error, whatever the table holds. *)
Theorem clone_result_fails_validation
    (generated_uuid pk : UUID) (self : GitRepository)
    (branch_arg head_arg : option string) (w w' : World)
    (c : GitRepository) (db : Table) :
  fresh_for (table w) generated_uuid pk self ->
  clone generated_uuid pk self branch_arg head_arg w = (inr c, w') ->
  initial_slug self = slug self ->
  super_clean c = None ->
  clean db c
  = (inl (ImmutableFieldError (slug self)
            (slug self ++ "_" ++ uuid_str generated_uuid)), c).
Proof.
  intros Hfresh Hclone Hinit Hsuper.
  apply clone_returns in Hclone as [Hc _]; [|done].
  assert (Hslug : slug c = slug self ++ "_" ++ uuid_str generated_uuid)
    by (rewrite Hc; by destruct branch_arg, head_arg).
  assert (Hini : initial_slug c = slug self)
    by (rewrite Hc, <- Hinit; by destruct branch_arg, head_arg).
  assert (Hp : present_in_database c = true) by by rewrite Hc.
  assert (Hne : slug c <> "")
    by (rewrite Hslug; apply append_String_not_empty).
  assert (Heff : effective_slug db c = slug c)
    by (unfold effective_slug; by rewrite decide_False).
  assert (Hfilled : slug_filled db c = c)
    by (unfold slug_filled; by rewrite decide_False).
  rewrite (clean_slug_changed db c Hsuper Hp).
  - by rewrite Heff, Hini, Hslug, Hfilled.
  - rewrite Heff, Hini, Hslug. apply append_not_self. discriminate.
Qed.

(** X10. The URL and the path of the clone are computed after [save] and
    outside the [try] block: when [save] has accepted the copy and that
    computation raises, [clone] ends with its exception and the saved
    record stays in the table. *)
Theorem clone_failed_url_leaves_record
    (generated_uuid pk : UUID) (self : GitRepository)
    (branch_arg head_arg : option string) (w : World) (e : exn) :
  let c := cloned_record generated_uuid pk self branch_arg head_arg in
  (branch_arg = None -> head_arg = None) ->
  fresh_for (table w) generated_uuid pk self ->
  fits_columns (clone_candidate generated_uuid self branch_arg head_arg)
  = true ->
  get_repo_from_url_to_path_and_from_branch c = inl e ->
  exists w',
    clone generated_uuid pk self branch_arg head_arg w = (inl e, w')
    /\ table w' !! pk = Some (to_row c)
    /\ table w !! pk = None.
Proof.
  intros c Hargs Hfresh Hfits Hrepo. eexists. split.
  - apply clone_failed_url_keeps_record; [done| |done].
    by apply fresh_save_accepts.
  - split; [apply lookup_insert_eq|by destruct Hfresh].
Qed.

End CloneFurther.

(** *** The further properties of [clone] at concrete inputs *)

Lemma example_row_fresh :
  fresh_for (table example_world) example_uuid 9%N (from_db 1%N example_row).
Proof. apply example_fresh. vm_compute. reflexivity. Defined.

Lemma example_clone :
  clone (collab := example_collaborators) example_uuid 9%N
    (from_db 1%N example_row) None None example_world
  = (inr (cloned_record example_uuid 9%N (from_db 1%N example_row) None None),
     set_table
       (<[9%N := to_row (cloned_record example_uuid 9%N
                           (from_db 1%N example_row) None None)]> example_db)
       example_world).
Proof.
  rewrite clone_saved
    by (done || (apply example_accepts; vm_compute; reflexivity)).
  reflexivity.
Defined.

Lemma clone_adds_one_row_witness :
  exists c w',
    clone (collab := example_collaborators) example_uuid 9%N
      (from_db 1%N example_row) None None example_world = (inr c, w')
    /\ size (table w') = 3.
Proof.
  eexists _, _. split; [exact example_clone|].
  destruct (clone_adds_one_row (collab := example_collaborators)
              example_uuid 9%N (from_db 1%N example_row) None None
              example_world _ _
              example_row_fresh example_clone)
    as (_ & _ & Hsize & _).
  exact Hsize.
Defined.

Lemma clone_pinned_witness :
  exists c w',
    clone (collab := example_collaborators) example_uuid 9%N
      (from_db 1%N example_row) (Some "dev") (Some "abc123") example_world
    = (inr c, w')
    /\ branch c = "dev"
    /\ current_head c = "abc123".
Proof.
  destruct (clone_pinned (collab := example_collaborators) example_uuid 9%N
              (from_db 1%N example_row) "dev" "abc123" example_world
              "https://example.com/r.git"
              ("/opt/nautobot/git/configs_" ++ uuid_str example_uuid)
              "dev" "bbb" true)
    as (c & w' & Hclone & Hbr & Hhead & _).
  - apply example_fresh. vm_compute. reflexivity.
  - vm_compute. reflexivity.
  - vm_compute. reflexivity.
  - reflexivity.
  - reflexivity.
  - exists c, w'. split; [exact Hclone|]. split; [exact Hbr|exact Hhead].
Defined.

Lemma clone_result_fails_validation_witness :
  let c := cloned_record example_uuid 9%N (from_db 1%N example_row)
             None None in
  clean (collab := example_collaborators) example_db c
  = (inl (ImmutableFieldError "configs"
            "configs_12345678-1234-5678-1234-567812345670"), c).
Proof.
  intros c.
  apply (clone_result_fails_validation (collab := example_collaborators)
           example_uuid 9%N (from_db 1%N example_row) None None
           example_world _ c example_db
           example_row_fresh example_clone);
    reflexivity.
Defined.

Lemma clone_failed_url_leaves_record_witness :
  exists w',
    clone (collab := failing_url_collaborators) example_uuid 9%N
      (from_db 1%N example_row) None None example_world
    = (inl (OtherError "secret not found"), w')
    /\ table w' !! 9%N
       = Some (to_row (cloned_record example_uuid 9%N
                         (from_db 1%N example_row) None None)).
Proof.
  destruct (clone_failed_url_leaves_record
              (collab := failing_url_collaborators) example_uuid 9%N
              (from_db 1%N example_row) None None example_world
              (OtherError "secret not found"))
    as (w' & Hclone & Hrow & _).
  - done.
  - apply example_fresh. vm_compute. reflexivity.
  - vm_compute. reflexivity.
  - reflexivity.
  - exists w'. split; [exact Hclone|exact Hrow].
Defined.

(** ** Cache directories *)

Lemma string_app_cons x (a b : string) : String x a ++ b = String x (a ++ b).
Proof. reflexivity. Qed.

Lemma string_app_assoc (a b c : string) : (a ++ b) ++ c = a ++ b ++ c.
Proof.
  induction a as [|x a IH]; [done|].
  rewrite !string_app_cons. by f_equal.
Qed.

Lemma string_prefix_app (a b : string) : String.prefix a (a ++ b) = true.
Proof.
  induction a as [|x a IH]; [by destruct b|].
  rewrite string_app_cons. simpl.
  destruct (ascii_dec x x); [exact IH|done].
Qed.

Lemma string_prefix_refl (a : string) : String.prefix a a = true.
Proof.
  induction a as [|x a IH]; simpl; [done|].
  destruct (ascii_dec x x); [exact IH|done].
Qed.

Lemma string_length_app (a b : string) :
  String.length (a ++ b) = String.length a + String.length b.
Proof.
  induction a as [|x a IH]; [done|].
  rewrite string_app_cons. simpl. by f_equal.
Qed.

(** For a fixed first component, [os.path.join] puts one and the same
    text, which begins with that component, before every relative second
    component. *)
Lemma os_path_join_relative (a : string) :
  exists p,
    String.prefix a p = true
    /\ forall b, starts_with_sep b = false -> os_path_join a b = p ++ b.
Proof.
  destruct (bool_decide (a = "") || ends_with_sep a) eqn:Hsep.
  - exists a. split.
    + apply string_prefix_refl.
    + intros b Hb. unfold os_path_join. by rewrite Hb, Hsep.
  - exists (a ++ "/"). split; [apply string_prefix_app|].
    intros b Hb. unfold os_path_join. rewrite Hb, Hsep.
    by rewrite string_app_assoc.
Qed.

Lemma string_prefix_trans (a p s : string) :
  String.prefix a p = true -> String.prefix a (p ++ s) = true.
Proof.
  revert p. induction a as [|x a IH]; intros p; [by destruct (p ++ s)|].
  destruct p as [|y p]; [done|].
  rewrite string_app_cons. simpl.
  destruct (ascii_dec x y); [apply IH|done].
Qed.

(** [os.path.join] with a fixed first component is one-to-one on
    relative second components. *)
Lemma os_path_join_relative_inj (a b1 b2 : string) :
  starts_with_sep b1 = false -> starts_with_sep b2 = false ->
  os_path_join a b1 = os_path_join a b2 -> b1 = b2.
Proof.
  intros H1 H2.
  destruct (os_path_join_relative a) as (p & _ & Hjoin).
  rewrite !Hjoin by done. apply String.app_inj.
Qed.

(** X11. Records whose slugs do not begin with the separator have their
    cache directories under [GIT_ROOT], and two of them with the same
    directory have the same slug. *)
Theorem filesystem_path_injective
    (GIT_ROOT : string) (r1 r2 : GitRepository) :
  starts_with_sep (slug r1) = false ->
  starts_with_sep (slug r2) = false ->
  String.prefix GIT_ROOT (filesystem_path GIT_ROOT r1) = true
  /\ (filesystem_path GIT_ROOT r1 = filesystem_path GIT_ROOT r2 ->
      slug r1 = slug r2).
Proof.
  intros H1 H2. unfold filesystem_path. split.
  - destruct (os_path_join_relative GIT_ROOT) as (p & Hp & Hjoin).
    rewrite Hjoin by done. by apply string_prefix_trans.
  - by apply os_path_join_relative_inj.
Qed.

(** X12. The cache directory of the record that [clone] builds differs
    from that of its source, when the source's slug does not begin with
    the separator. *)
Theorem clone_filesystem_path_differs
    (GIT_ROOT : string) (generated_uuid pk : UUID) (self : GitRepository)
    (branch_arg head_arg : option string) :
  starts_with_sep (slug self) = false ->
  filesystem_path GIT_ROOT
    (cloned_record generated_uuid pk self branch_arg head_arg)
  <> filesystem_path GIT_ROOT self.
Proof.
  intros Hrel Heq.
  assert (Hslug : slug (cloned_record generated_uuid pk self branch_arg
                          head_arg)
                  = slug self ++ "_" ++ uuid_str generated_uuid)
    by by destruct branch_arg, head_arg.
  unfold filesystem_path in Heq.
  apply os_path_join_relative_inj in Heq.
  - revert Heq. rewrite Hslug. apply append_not_self. discriminate.
  - rewrite Hslug. by destruct (slug self).
  - done.
Qed.

(** An absolute slug is its own cache directory, whatever the root. *)
Example filesystem_path_absolute_slug :
  filesystem_path "/opt/nautobot/git"
    (set_slug "/etc" (from_db 1%N example_row)) = "/etc".
Proof. reflexivity. Qed.

Example filesystem_path_example :
  filesystem_path "/opt/nautobot/git" (from_db 1%N example_row)
  = "/opt/nautobot/git/configs".
Proof. reflexivity. Qed.

Lemma filesystem_path_injective_witness :
  String.prefix "/opt/nautobot/git"
    (filesystem_path "/opt/nautobot/git" (from_db 1%N example_row)) = true.
Proof.
  destruct (filesystem_path_injective "/opt/nautobot/git"
              (from_db 1%N example_row) (from_db 2%N example_gone_row))
    as [Hunder _]; [reflexivity|reflexivity|exact Hunder].
Defined.

Lemma clone_filesystem_path_differs_witness :
  filesystem_path "/opt/nautobot/git"
    (cloned_record example_uuid 9%N (from_db 1%N example_row) None None)
  <> filesystem_path "/opt/nautobot/git" (from_db 1%N example_row).
Proof.
  apply clone_filesystem_path_differs. reflexivity.
Defined.

(** ** The text of a UUID *)

Lemma hex_field_length (len : nat) (skip n : N) :
  String.length (hex_field len skip n) = len.
Proof. induction len as [|len IH]; simpl; [done|]. by f_equal. Qed.

Lemma uuid_str_length (u : UUID) : String.length (uuid_str u) = 36.
Proof.
  unfold uuid_str. rewrite !string_length_app, !hex_field_length.
  reflexivity.
Qed.

(** X13. The name of the record that [clone] builds is 39 characters
    longer than its source's, and its slug 37 characters longer. *)
Theorem clone_candidate_lengths
    (generated_uuid : UUID) (self : GitRepository)
    (branch_arg head_arg : option string) :
  let c := clone_candidate generated_uuid self branch_arg head_arg in
  String.length (name c) = String.length (name self) + 39
  /\ String.length (slug c) = String.length (slug self) + 37.
Proof.
  destruct (clone_candidate_fields generated_uuid self branch_arg head_arg)
    as (_ & Hn & Hs & _).
  simpl. rewrite Hn, Hs.
  rewrite !string_length_app, uuid_str_length. simpl. split; lia.
Qed.

Lemma digit_value_hex_digit (d : N) :
  (d < 16)%N -> digit_value (hex_digit d) = d.
Proof.
  intros Hd.
  destruct d as [|p]; [reflexivity|].
  do 4 (try (destruct p as [p|p|]; try reflexivity)); lia.
Qed.

(** Reading a field of digits back gives the digits of the number that
    the field was cut from. *)
Lemma hex_value_hex_field (len : nat) (skip n acc : N) :
  hex_value acc (hex_field len skip n)
  = (acc * 16 ^ N.of_nat len
     + (n / 16 ^ skip) mod 16 ^ N.of_nat len)%N.
Proof.
  revert acc. induction len as [|len IH]; intros acc.
  - simpl. rewrite N.mod_1_r. lia.
  - cbn [hex_field hex_value]. rewrite IH.
    change 15%N with (N.ones 4).
    rewrite N.land_ones, N.shiftr_div_pow2.
    rewrite digit_value_hex_digit by (apply N.mod_lt; lia).
    rewrite Nat2N.inj_succ, N.pow_succ_r'.
    rewrite (N.mul_comm 16 (16 ^ N.of_nat len)).
    rewrite (N.Div0.mod_mul_r (n / 16 ^ skip)).
    rewrite N.Div0.div_div, <- N.pow_add_r.
    replace (2 ^ (4 * (skip + N.of_nat len)))%N
      with (16 ^ (skip + N.of_nat len))%N
      by (change 16%N with (2 ^ 4)%N; by rewrite <- N.pow_mul_r).
    change (2 ^ 4)%N with 16%N. ring.
Qed.

(** A field of [a + b] digits is its first [a] digits followed by its
    last [b]. *)
Lemma hex_field_split (a b : nat) (skip n : N) :
  hex_field (a + b) skip n
  = hex_field a (skip + N.of_nat b) n ++ hex_field b skip n.
Proof.
  induction a as [|a IH]; [done|].
  cbn [Nat.add hex_field]. rewrite string_app_cons, IH.
  do 4 f_equal. lia.
Qed.

Lemma string_app_inv (a a' b b' : string) :
  String.length a = String.length a' ->
  a ++ b = a' ++ b' -> a = a' /\ b = b'.
Proof.
  revert a'. induction a as [|x a IH]; intros [|x' a'] Hlen Heq;
    try done.
  rewrite !string_app_cons in Heq. injection Heq as -> Heq.
  destruct (IH a') as [-> ->]; [by injection Hlen|done|done].
Qed.

(** The text of a 128-bit UUID determines it. *)
Lemma uuid_str_inj (u v : UUID) :
  (u < 2 ^ 128)%N -> (v < 2 ^ 128)%N -> uuid_str u = uuid_str v -> u = v.
Proof.
  intros Hu Hv Heq. unfold uuid_str in Heq.
  apply string_app_inv in Heq as [H1 Heq]; [|by rewrite !hex_field_length].
  apply (string_app_inv "-" "-") in Heq as [_ Heq]; [|done].
  apply string_app_inv in Heq as [H2 Heq]; [|by rewrite !hex_field_length].
  apply (string_app_inv "-" "-") in Heq as [_ Heq]; [|done].
  apply string_app_inv in Heq as [H3 Heq]; [|by rewrite !hex_field_length].
  apply (string_app_inv "-" "-") in Heq as [_ Heq]; [|done].
  apply string_app_inv in Heq as [H4 Heq]; [|by rewrite !hex_field_length].
  apply (string_app_inv "-" "-") in Heq as [_ H5]; [|done].
  assert (Hsplit : forall n,
    hex_field 32 0 n
    = hex_field 8 24 n ++ hex_field 4 20 n ++ hex_field 4 16 n
      ++ hex_field 4 12 n ++ hex_field 12 0 n).
  { intros n.
    change (hex_field 32 0 n) with (hex_field (8 + 24) 0 n).
    rewrite (hex_field_split 8 24 0 n).
    change (hex_field 24 0 n) with (hex_field (4 + 20) 0 n).
    rewrite (hex_field_split 4 20 0 n).
    change (hex_field 20 0 n) with (hex_field (4 + 16) 0 n).
    rewrite (hex_field_split 4 16 0 n).
    change (hex_field 16 0 n) with (hex_field (4 + 12) 0 n).
    rewrite (hex_field_split 4 12 0 n).
    reflexivity. }
  assert (Hall : hex_field 32 0 u = hex_field 32 0 v)
    by (rewrite !Hsplit; by rewrite H1, H2, H3, H4, H5).
  apply (f_equal (hex_value 0)) in Hall.
  rewrite !hex_value_hex_field in Hall.
  change (16 ^ N.of_nat 32)%N with (2 ^ 128)%N in Hall.
  rewrite !N.pow_0_r, !N.div_1_r, !N.mul_0_l, !N.add_0_l in Hall.
  by rewrite !N.mod_small in Hall.
Qed.

(** X14. Two clones of a record made with different 128-bit UUIDs have
    different names and different slugs. *)
Theorem clone_candidates_distinct
    (u u' : UUID) (self : GitRepository)
    (branch_arg head_arg : option string) :
  (u < 2 ^ 128)%N -> (u' < 2 ^ 128)%N -> u <> u' ->
  name (clone_candidate u self branch_arg head_arg)
  <> name (clone_candidate u' self branch_arg head_arg)
  /\ slug (clone_candidate u self branch_arg head_arg)
     <> slug (clone_candidate u' self branch_arg head_arg).
Proof.
  intros Hu Hu' Hne.
  destruct (clone_candidate_fields u self branch_arg head_arg)
    as (_ & -> & -> & _).
  destruct (clone_candidate_fields u' self branch_arg head_arg)
    as (_ & -> & -> & _).
  split; intros Heq; apply Hne; apply uuid_str_inj; try done.
  - apply String.app_inj in Heq. apply (String.app_inj " (") in Heq.
    apply string_app_inv in Heq as [Heq _]; [done|].
    by rewrite !uuid_str_length.
  - apply String.app_inj in Heq. by apply (String.app_inj "_") in Heq.
Qed.

Lemma clone_candidates_distinct_witness :
  slug (clone_candidate example_uuid (from_db 1%N example_row) None None)
  <> slug (clone_candidate 7%N (from_db 1%N example_row) None None).
Proof.
  destruct (clone_candidates_distinct example_uuid 7%N
              (from_db 1%N example_row) None None)
    as [_ Hslug]; [reflexivity|reflexivity|discriminate|exact Hslug].
Defined.
